(** * SDQScriptTest: a shallow embedding of the cron-job liveness probe

  The development follows [SDQScriptTest.py]: the line classifier
  [process_line], the report-file rotation [createRotatingLog], the
  tail-and-scan loop [scan_syslog] and the periodic [report].  Python
  byte strings are [string]; the file system is a finite map from paths
  to file contents; the clock is read as an integer number of seconds. *)

From stdpp Require Import gmap strings list fin_maps pretty.
From Stdlib Require Import ZArith Lia.

Local Open Scope list_scope.

(** ** Python [str] operations *)

Module PyStr.

(** [s.startswith(p)]. *)
Fixpoint startswith (p s : string) : bool :=
  match p, s with
  | EmptyString, _ => true
  | String a p', String b s' => if Ascii.eqb a b then startswith p' s' else false
  | String _ _, EmptyString => false
  end.

(** [sub in s] for two [str] values: substring containment. *)
Fixpoint contains (sub s : string) : bool :=
  if startswith sub s then true
  else match s with
       | EmptyString => false
       | String _ s' => contains sub s'
       end.

(** The declarative reading of [sub in s]. *)
Definition Substring (sub s : string) : Prop :=
  exists pre post, s = pre +:+ sub +:+ post.

(** [s[-1]], when [s] is not empty. *)
Fixpoint last (s : string) : option Ascii.ascii :=
  match s with
  | EmptyString => None
  | String a EmptyString => Some a
  | String _ s' => last s'
  end.

(** [''.join(ls)]. *)
Definition join (ls : list string) : string := String.concat "" ls.

End PyStr.

Import PyStr.

(** ** Module constants *)

(** [FAILURES = ['ERROR', 'WARNING', 'WARN']]. *)
Definition FAILURES : list string := ["ERROR"; "WARNING"; "WARN"].

(** [TOUCH_COUNT_FILE_ROTATE = 15]. *)
Definition TOUCH_COUNT_FILE_ROTATE : nat := 15.

(** [REPORT_INTERVAL = 7*60]. *)
Definition REPORT_INTERVAL : Z := 7 * 60.

(** ** Exceptions *)

Inductive Exn := OSError.

(** A computation either returns or raises; the state reached when the
    exception left is kept with it. *)
Inductive Res (A : Type) :=
| Ok (a : A)
| Raised (e : Exn) (a : A).
Arguments Ok {A}.
Arguments Raised {A}.

(** ** The tailed file *)

(** ['\n']. *)
Definition newline : Ascii.ascii := Ascii.ascii_of_nat 10.
Definition NL : string := String newline "".

(** [str(n)] for a non-negative integer. *)
Definition str (n : nat) : string := pretty n.

(** No character of [s] is a newline. *)
Fixpoint newline_free (s : string) : bool :=
  match s with
  | EmptyString => true
  | String a s' => negb (Ascii.eqb a newline) && newline_free s'
  end.

(** A complete line: text without a newline, and the newline that ends
    it. *)
Definition complete_line (l : string) : Prop :=
  exists body, l = body +:+ NL /\ newline_free body = true.

(** An open file object on a log other processes append to: the contents
    before the file position and the contents from the position on. *)
Record File := mkFile {
  before : string;
  after : string
}.

(** [open(syslog, 'r')]: positioned at the start. *)
Definition open_read (content : string) : File := mkFile "" content.

(** [f.seek(0, 2)]: positioned at the end. *)
Definition seek_end (f : File) : File := mkFile (before f +:+ after f) "".

(** Another process appends [data] to the file. *)
Definition file_append (data : string) (f : File) : File :=
  mkFile (before f) (after f +:+ data).

(** The text up to and including the first newline of [s], or all of [s]
    when it has none, and what follows it. *)
Fixpoint split_line (s : string) : string * string :=
  match s with
  | EmptyString => ("", "")
  | String a s' =>
      if Ascii.eqb a newline then (String a "", s')
      else let '(d, r) := split_line s' in (String a d, r)
  end.

(** [f.readline()]: the data read (empty at end of file) and the file
    object advanced past it. *)
Definition readline (f : File) : string * File :=
  let '(data, rest) := split_line (after f) in
  (data, mkFile (before f +:+ data) rest).

(** What can happen next in a session: the scanning thread and the
    reporter thread of the script, and the two processes around it.  The
    threads and processes interleave at the granularity of these actions:
    one pass through the inner loop of [scan_syslog], with the handling of
    the line it completes, is one action. *)
Inductive Action :=
| Appended (data : string)  (* a process appends [data] to the tailed log *)
| Readline (now : Z)        (* the scanning thread reaches [f.readline()] *)
| ReportTick (now : Z)      (* the timer thread calls [report] *)
| CronTouch.                (* the installed cron job runs [touch filename] *)

(** ** What the script imports

  [ExpiringDict] comes from the [expiringdict] package and the calendar
  rendering of a timestamp from [datetime]; neither is part of the
  script.  The script only stores into the dictionary
  ([touches[key] = value]) and asks for its length ([len(touches)]), so
  these two operations are the interface, each taking the clock reading
  at the moment of the call. *)

Class Platform (D : Type) := {
(** [touches[key] = value], executed when the clock reads [now]. *)
dict_setitem : Z -> Z -> string -> D -> D;
(** [len(touches)], executed when the clock reads [now]. *)
dict_len : Z -> D -> nat * D;
(** [datetime.datetime.now().strftime("%Y-%m-%d %H:%M:%S\t")]. *)
strftime : Z -> string
}.

(** ** Observable effects and the world they act on *)

Inductive Effect :=
| Classify (line : string)            (* a call of [process_line] on [line] *)
| Setitem (key : Z) (value : string)  (* [touches[key] = value] *)
| Write (path data : string)          (* [f.write(data)] on [open(path, 'a+')] *)
| Rename (src dst : string)           (* [os.rename(src, dst)] *)
| Print (text : string).              (* [print text] *)

Record World (D : Type) := mkWorld {
touches : D;
files : gmap string string;
trace : list Effect
}.
Arguments mkWorld {D}.
Arguments touches {D}.
Arguments files {D}.
Arguments trace {D}.

Section Script.
Context {D : Type} `{Platform D}.

(** Record an effect in the trace. *)
Definition log (e : Effect) (w : World D) : World D :=
  mkWorld (touches w) (files w) (trace w ++ [e]).

(** The contents of [path], the empty string when the file is absent
    (which is what opening in mode ['a+'] starts from). *)
Definition contents (fs : gmap string string) (path : string) : string :=
  default "" (fs !! path).

(** [f.write(data)] on a handle from [open(path, 'a+')]. *)
Definition write (path data : string) (w : World D) : World D :=
  mkWorld (touches w)
          (<[path := contents (files w) path +:+ data]> (files w))
          (trace w ++ [Write path data]).

(** The loop over [FAILURES] in [process_line]. *)
Definition failed_scan (line : string) : bool :=
  fold_left (fun failed failure => if contains failure line then true else failed)
            FAILURES false.

(** [process_line(line, touchmark, touches, filename)] with the clock
    reading [now]; the dictionary and the files live in the world. *)
Definition process_line (now : Z) (line touchmark filename : string)
    (w : World D) : bool * World D :=
  if contains touchmark line then
    (true, mkWorld (dict_setitem now now line (touches w)) (files w)
                   (trace w ++ [Setitem now line]))
  else if failed_scan line then
    (false, write filename line (write filename (strftime now) w))
  else (false, w).

(** [print text]. *)
Definition print (text : string) (w : World D) : World D :=
  mkWorld (touches w) (files w) (trace w ++ [Print text]).

(** [report(touches, filename)], the body the [timer] decorator runs at
    every tick. *)
Definition report (now : Z) (filename : string) (w : World D) : World D :=
  let w1 := write filename (strftime now) (print "Run report now..." w) in
  let '(n, d) := dict_len now (touches w1) in
  write filename (str n +:+ NL) (mkWorld d (files w1) (trace w1)).

(** [os.path.exists(path)]. *)
Definition os_path_exists (path : string) (w : World D) : bool :=
  bool_decide (is_Some (files w !! path)).

(** [os.rename(src, dst)]: [OSError] when [src] is absent, otherwise
    [dst] takes the contents and [src] is gone. *)
Definition os_rename (src dst : string) (w : World D) : Res (World D) :=
  match files w !! src with
  | None => Raised OSError w
  | Some c => Ok (mkWorld (touches w) (<[dst := c]> (delete src (files w)))
                          (trace w ++ [Rename src dst]))
  end.

(** [createRotatingLog(filename, logfile, file_count)]; the handler
    [except OSError: raise] passes the exception on. *)
Definition createRotatingLog (filename logfile : string) (file_count : nat)
    (w : World D) : Res (World D) :=
  if negb (os_path_exists logfile w) then os_rename filename logfile w
  else os_rename filename ((logfile +:+ ".") +:+ str file_count) w.

(** The state of [scan_syslog]: the handle [f] on the log, the line being
    assembled, the two counters, and the world. *)
Record Scan := mkScan {
  f : File;
  line : string;
  touch_count : nat;
  file_count : nat;
  world : World D
}.

(** The condition of the inner loop:
    [len(line) == 0 or line[-1] != '\n']. *)
Definition incomplete (line : string) : bool :=
  match last line with
  | Some c => negb (Ascii.eqb c newline)
  | None => true
  end.

(** The part of the outer loop body after the inner loop ("Got a line to
    process"): classification, the counter, and the rotation check. *)
Definition got_line (now : Z) (touchmark filename logfile : string)
    (f' : File) (line' : string) (s : Scan) : Res Scan :=
  let '(touched, w1) :=
    process_line now line' touchmark filename (log (Classify line') (world s)) in
  let tc := if touched then S (touch_count s) else touch_count s in
  if Nat.eqb tc TOUCH_COUNT_FILE_ROTATE then
    match createRotatingLog filename logfile (file_count s) w1 with
    | Ok w2 => Ok (mkScan f' "" 0 (S (file_count s)) w2)
    | Raised e w2 => Raised e (mkScan f' line' tc (file_count s) w2)
    end
  else Ok (mkScan f' "" tc (file_count s) w1).

(** One pass through the inner loop of [scan_syslog]: a [readline], the
    wait when nothing came, and, when the line is complete, the rest of
    the outer loop body. *)
Definition readline_step (now : Z) (touchmark filename logfile : string)
    (s : Scan) : Res Scan :=
  let '(data, f') := readline (f s) in
  if String.eqb data "" then Ok s
  else
    let line' := line s +:+ data in
    if incomplete line' then
      Ok (mkScan f' line' (touch_count s) (file_count s) (world s))
    else got_line now touchmark filename logfile f' line' s.

(** What the cron job installed by [createCronJob] does: [touch filename]. *)
Definition cron_touch (filename : string) (w : World D) : World D :=
  match files w !! filename with
  | Some _ => w
  | None => mkWorld (touches w) (<[filename := ""]> (files w)) (trace w)
  end.

Definition with_world (g : World D -> World D) (s : Scan) : Scan :=
  mkScan (f s) (line s) (touch_count s) (file_count s) (g (world s)).

(** One scheduling step of the session. *)
Definition step (touchmark filename logfile : string) (a : Action)
    (s : Scan) : Res Scan :=
  match a with
  | Appended data =>
      Ok (mkScan (file_append data (f s)) (line s) (touch_count s)
                 (file_count s) (world s))
  | Readline now => readline_step now touchmark filename logfile s
  | ReportTick now => Ok (with_world (report now filename) s)
  | CronTouch => Ok (with_world (cron_touch filename) s)
  end.

(** The session runs until an exception leaves [scan_syslog]. *)
Fixpoint run (touchmark filename logfile : string) (acts : list Action)
    (s : Scan) : Res Scan :=
  match acts with
  | [] => Ok s
  | a :: acts' =>
      match step touchmark filename logfile a s with
      | Ok s' => run touchmark filename logfile acts' s'
      | Raised e s' => Raised e s'
      end
  end.

(** [scan_syslog(syslog, touchmark, touches, filename, logfile)] entered
    when the log holds [history]: both counters at 0, the log opened and
    positioned at its end by [f.seek(0, 2)]. *)
Definition scan_start (history : string) (w : World D) : Scan :=
  mkScan (seek_end (open_read history)) "" 0 0 w.

Definition scan_syslog (history touchmark filename logfile : string)
    (acts : list Action) (w : World D) : Res Scan :=
  run touchmark filename logfile acts (scan_start history w).

(** The rotations of a trace, in the order they happened. *)
Fixpoint renames (tr : list Effect) : list (string * string) :=
  match tr with
  | [] => []
  | Rename src dst :: tr' => (src, dst) :: renames tr'
  | _ :: tr' => renames tr'
  end.

(** The lines handed to [process_line], in order. *)
Fixpoint classified (tr : list Effect) : list string :=
  match tr with
  | [] => []
  | Classify l :: tr' => l :: classified tr'
  | _ :: tr' => classified tr'
  end.

(** The dictionary stores of a trace, in order. *)
Fixpoint setitems (tr : list Effect) : list (Z * string) :=
  match tr with
  | [] => []
  | Setitem k v :: tr' => (k, v) :: setitems tr'
  | _ :: tr' => setitems tr'
  end.

(** The number of dictionary stores since the last rotation, starting
    from [n]. *)
Fixpoint pending (tr : list Effect) (n : nat) : nat :=
  match tr with
  | [] => n
  | Setitem _ _ :: tr' => pending tr' (S n)
  | Rename _ _ :: tr' => pending tr' 0
  | _ :: tr' => pending tr' n
  end.

(** For each rotation of a trace, the number of dictionary stores between
    the rotation before it (or the start, with [n] stores counted already)
    and itself. *)
Fixpoint rotation_gaps (tr : list Effect) (n : nat) : list nat :=
  match tr with
  | [] => []
  | Setitem _ _ :: tr' => rotation_gaps tr' (S n)
  | Rename _ _ :: tr' => n :: rotation_gaps tr' 0
  | _ :: tr' => rotation_gaps tr' n
  end.

(** Every rotation of the trace comes directly after the classification of
    a line and the store of that same line. *)
Definition recorded_before_rename (tr : list Effect) : Prop :=
  forall pre src dst post,
    tr = pre ++ Rename src dst :: post ->
    exists pre' now l, pre = pre' ++ [Classify l; Setitem now l].

(** Effects that are neither a classification, a store nor a rotation. *)
Definition plain (e : Effect) : Prop :=
  match e with
  | Write _ _ | Print _ => True
  | _ => False
  end.

(** The destination [createRotatingLog] picks, given the files present. *)
Definition rotated (logfile : string) (file_count : nat)
    (fs : gmap string string) : string :=
  if bool_decide (is_Some (fs !! logfile))
  then (logfile +:+ ".") +:+ str file_count
  else logfile.

(** The rename the [k]-th rotation of a fresh session performs, counting
    from 0: the first goes to [logfile], a later one to [logfile.k]. *)
Definition rotation_name (filename logfile : string) (k : nat)
    : string * string :=
  (filename,
   match k with
   | 0 => logfile
   | S _ => (logfile +:+ ".") +:+ str k
   end).

(** The lines among [ls] that [process_line] takes for touches. *)
Definition touch_lines (touchmark : string) (ls : list string) : list string :=
  filter (fun l => contains touchmark l = true) ls.

(** The bookkeeping of the loop: how the two counters of [scan_syslog]
    relate to the trace of the session. *)
Definition disciplined (touchmark : string) (touch_count file_count : nat)
    (tr : list Effect) : Prop :=
  pending tr 0 = touch_count /\
  rotation_gaps tr 0
    = replicate (length (renames tr)) TOUCH_COUNT_FILE_ROTATE /\
  recorded_before_rename tr /\
  length (setitems tr)
    = TOUCH_COUNT_FILE_ROTATE * length (renames tr) + touch_count /\
  file_count = length (renames tr) /\
  map snd (setitems tr) = touch_lines touchmark (classified tr).

(** All the data appended to the tailed log by a list of actions. *)
Fixpoint appended (acts : list Action) : string :=
  match acts with
  | [] => ""
  | Appended data :: acts' => data +:+ appended acts'
  | _ :: acts' => appended acts'
  end.

(** The state a run ended in, returned or raised. *)
Definition final (r : Res Scan) : Scan :=
  match r with
  | Ok s => s
  | Raised _ s => s
  end.

End Script.

(** [touchmark = '(touch ' + filename + ' # ' + comment + ')'] in [main],
    with [comment = 'SDQScript']. *)
Definition touchmark_of (filename : string) : string :=
  ((("(touch " +:+ filename) +:+ " # ") +:+ "SDQScript") +:+ ")".

(** ** The expiring cache *)

Module ExpiringCache.

(** Modelled from the spec: the [ExpiringDict] class of the [expiringdict]
    package, which the script imports and instantiates as
    [ExpiringDict(max_len=1000, max_age_seconds=REPORT_INTERVAL)] and whose
    code is not among the sources.  The cache is a mapping keyed by
    timestamp, kept here in insertion order, oldest first. *)
Record t := mk {
  window : Z;
  capacity : nat;
  entries : list (Z * string)
}.

Definition empty (window : Z) (capacity : nat) : t := mk window capacity [].

(** Modelled from the spec: an entry is older than the window when its age
    at the moment [now] exceeds [window]. *)
Definition fresh (window now : Z) (e : Z * string) : Prop :=
  (now - e.1 <= window)%Z.

#[global] Instance fresh_dec window now e : Decision (fresh window now e).
Proof. unfold fresh. apply _. Defined.

(** Modelled from the spec: the lazy eviction shared by [Insert] and
    [Size]. *)
Definition evict (now : Z) (c : t) : t :=
  mk (window c) (capacity c) (filter (fresh (window c) now) (entries c)).

(** Modelled from the spec: [Insert(timestamp, value)] adds an entry,
    first evicting any entry older than the window and, if at capacity,
    evicting the oldest-inserted entry regardless of age.  The cache being
    a mapping, an entry already stored under the timestamp is replaced. *)
Definition Insert (now ts : Z) (v : string) (c : t) : t :=
  let live := entries (evict now c) in
  let others := filter (fun e => e.1 <> ts) live in
  let room := if decide (capacity c <= length others) then tail others else others in
  mk (window c) (capacity c) (room ++ [(ts, v)]).

(** Modelled from the spec: [Size()] returns the count of entries that are
    not older than the window as of the call, after the same eviction. *)
Definition Size (now : Z) (c : t) : nat * t :=
  let c' := evict now c in (length (entries c'), c').

(** The operations of a cache, for sequences of calls. *)
Inductive op :=
| OpInsert (now ts : Z) (v : string)
| OpSize (now : Z).

Definition apply (c : t) (o : op) : t :=
  match o with
  | OpInsert now ts v => Insert now ts v c
  | OpSize now => (Size now c).2
  end.

End ExpiringCache.

(** The script on the cache of the spec, with the clock reading printed in
    decimal in place of the calendar rendering of [strftime]. *)
#[global] Instance cache_platform : Platform ExpiringCache.t := {
  dict_setitem := ExpiringCache.Insert;
  dict_len := ExpiringCache.Size;
  strftime := fun now => pretty now +:+ String (Ascii.ascii_of_nat 9) ""
}.

(** The cache [main] creates:
    [ExpiringDict(max_len=1000, max_age_seconds=REPORT_INTERVAL)]. *)
Definition main_touches : ExpiringCache.t :=
  ExpiringCache.empty REPORT_INTERVAL 1000.

(** ** Further observations of a session *)

(** All the data the session wrote, in the order of the writes. *)
Fixpoint written (tr : list Effect) : string :=
  match tr with
  | [] => ""
  | Write _ data :: tr' => data +:+ written tr'
  | _ :: tr' => written tr'
  end.

(** The number of newlines of [s]. *)
Fixpoint count_newlines (s : string) : nat :=
  match s with
  | EmptyString => 0
  | String a s' =>
      (if Ascii.eqb a newline then 1 else 0) + count_newlines s'
  end.

(** The rotations of a session that started without an archive: the
    renames done are those of [rotation_name], and the archive exists from
    the first rotation on. *)
Definition fresh_rotations {D : Type} (filename logfile : string)
    (s : @Scan D) : Prop :=
  renames (trace (world s))
    = map (rotation_name filename logfile) (seq 0 (file_count s)) /\
  (file_count s = 0 -> files (world s) !! logfile = None) /\
  (file_count s <> 0 -> is_Some (files (world s) !! logfile)).

(** The rename the [k]-th rotation performs in a session that finds the
    archive present from the start: always a suffixed name. *)
Definition suffixed_name (filename logfile : string) (k : nat)
    : string * string :=
  (filename, (logfile +:+ ".") +:+ str k).

(** From [w] to [w'] nothing was renamed, every file but the report file
    is as it was, and the report file grew by exactly the data written. *)
Definition grows {D : Type} (filename : string) (w w' : World D) : Prop :=
  renames (trace w') = renames (trace w) /\
  (forall p, p <> filename -> files w' !! p = files w !! p) /\
  exists data,
    written (trace w') = written (trace w) +:+ data /\
    contents (files w') filename = contents (files w) filename +:+ data.

(** From [s] to [s'] one rotation was done: the report file, grown to
    [w1] first, was renamed to the name [createRotatingLog] picks. *)
Definition rotates {D : Type} (filename logfile : string)
    (s s' : @Scan D) : Prop :=
  exists w1 c,
    grows filename (world s) w1 /\
    files w1 !! filename = Some c /\
    file_count s' = S (file_count s) /\
    trace (world s')
      = trace w1 ++ [Rename filename
                       (rotated logfile (file_count s) (files w1))] /\
    files (world s')
      = <[rotated logfile (file_count s) (files w1) := c]>
          (delete filename (files w1)).

(** Nothing written is lost: the files the rotations produced, in their
    order, and the report file after them hold exactly the data written. *)
Definition kept {D : Type} (filename : string) (w : World D) : Prop :=
  join (map (contents (files w)) (map snd (renames (trace w))))
  +:+ contents (files w) filename
  = written (trace w).

(** The rotations of a session that found the archive present: the
    renames done are those of [suffixed_name], and the archive is still
    there. *)
Definition present_rotations {D : Type} (filename logfile : string)
    (s : @Scan D) : Prop :=
  renames (trace (world s))
    = map (suffixed_name filename logfile) (seq 0 (file_count s)) /\
  is_Some (files (world s) !! logfile).

(** ** The option loop of [main] *)

Module Main.

(** The variables [main] sets from the options.  [touchmark] is bound only
    by the branch of [-f]. *)
Record Vars := mkVars {
  filename : string;
  touchmark : option string;
  minutes : string;
  logdir : string;
  logfile : string;
  runtime : string
}.

(** The values before the loop: the empty string each, [touchmark] not
    bound. *)
Definition initial : Vars := mkVars "" None "" "" "" "".

(** The text printed for [-h]. *)
Definition usage : string :=
  "SDQScriptTest.py -f <report file name (full path)> -m <touch file frequency>"
  +:+ " -d <log file dir> -l <log file name> -r <script run time>".

(** The loop either runs to its end or leaves through [sys.exit()], which
    carries no exit code, after printing. *)
Inductive Outcome :=
| Proceed (v : Vars)
| SystemExit (code : option Z) (printed : list string).

(** [opt in (a, b)]. *)
Definition opt_in (opt a b : string) : bool :=
  String.eqb opt a || String.eqb opt b.

(** The body of [for opt, arg in opts:]. *)
Definition option_body (v : Vars) (o : string * string) : Outcome :=
  let '(opt, arg) := o in
  if String.eqb opt "-h" then SystemExit None [usage]
  else
    let v1 := if opt_in opt "-f" "--filename"
              then mkVars arg (Some (touchmark_of arg)) (minutes v) (logdir v)
                          (logfile v) (runtime v)
              else v in
    let v2 := if String.eqb opt "-m"
              then mkVars (filename v1) (touchmark v1) arg (logdir v1)
                          (logfile v1) (runtime v1)
              else v1 in
    let v3 := if opt_in opt "-d" "--logdir"
              then mkVars (filename v2) (touchmark v2) (minutes v2) arg
                          (logfile v2) (runtime v2)
              else v2 in
    let v4 := if opt_in opt "-l" "--logfile"
              then mkVars (filename v3) (touchmark v3) (minutes v3) (logdir v3)
                          arg (runtime v3)
              else v3 in
    let v5 := if String.eqb opt "-r"
              then mkVars (filename v4) (touchmark v4) (minutes v4) (logdir v4)
                          (logfile v4) arg
              else v4 in
    Proceed v5.

(** [for opt, arg in opts: ...] from the variables [v]. *)
Fixpoint option_loop (opts : list (string * string)) (v : Vars) : Outcome :=
  match opts with
  | [] => Proceed v
  | o :: opts' =>
      match option_body v o with
      | Proceed v' => option_loop opts' v'
      | SystemExit code printed => SystemExit code printed
      end
  end.

(** The argument of the last option of [opts] named [a] or [b], [d] when
    there is none. *)
Fixpoint last_arg (a b : string) (opts : list (string * string))
    (d : string) : string :=
  match opts with
  | [] => d
  | (opt, arg) :: opts' =>
      last_arg a b opts' (if opt_in opt a b then arg else d)
  end.

(** Some option of [opts] is named [a] or [b]. *)
Definition given (a b : string) (opts : list (string * string)) : bool :=
  existsb (fun o => opt_in o.1 a b) opts.

End Main.

(** ** The cron job: [createCronJob] *)

Module Cron.

(** A job of the table: its command, its comment, and the argument of
    [minute.every] when that was called on it. *)
Record Job := mkJob {
  command : string;
  comment : string;
  minute_every : option string
}.

(** The [CronTab] object and the table of root it was read from and is
    written to.  The [crontab] package is not part of the script; the
    methods the script calls are taken by their documented meaning. *)
Record State := mkState {
  crons : list Job;
  system : list Job
}.

(** [CronTab(user='root')]. *)
Definition CronTab (table : list Job) : State := mkState table table.

(** [cron.find_comment(comment)]. *)
Definition find_comment (c : string) (st : State) : list Job :=
  filter (fun j => comment j = c) (crons st).

(** [cron.remove_all(comment=comment)]. *)
Definition remove_all (c : string) (st : State) : State :=
  mkState (filter (fun j => comment j <> c) (crons st)) (system st).

(** [cron.write()]. *)
Definition write (st : State) : State := mkState (crons st) (crons st).

(** [cron.new(cmd, comment=comment)]: the new job is the last of the
    table; the job object returned is that entry, given here by its
    index. *)
Definition new (cmd c : string) (st : State) : nat * State :=
  (length (crons st), mkState (crons st ++ [mkJob cmd c None]) (system st)).

(** [cron_job.minute.every(minutes)] on the job at index [i]. *)
Definition every (i : nat) (m : string) (st : State) : State :=
  mkState (alter (fun j => mkJob (command j) (comment j) (Some m)) i (crons st))
          (system st).

(** [createCronJob(cmd, minutes, comment)] on the table of root; the
    result is the table afterwards.  The truth value Python gives the
    object [find_comment] returns is the parameter [truth]. *)
Definition createCronJob (truth : list Job -> bool)
    (cmd minutes c : string) (table : list Job) : list Job :=
  let cron := CronTab table in
  let cron := if truth (find_comment c cron)
              then write (remove_all c cron)
              else cron in
  let '(cron_job, cron) := new cmd c cron in
  let cron := every cron_job minutes cron in
  system (write cron).

End Cron.

(** ** A sample session

    The report file [/tmp/report], the archive [/var/log/sdq/archive], and
    a log that receives the line cron writes for the job, fifteen times
    per batch; the cron job re-creates the report file before each
    batch. *)

Definition sample_report : string := "/tmp/report".
Definition sample_archive : string := "/var/log/sdq/archive".

Definition sample_touch_line : string :=
  "Nov  4 10:00:01 host CRON[4242]: (root) CMD "
  +:+ touchmark_of sample_report +:+ NL.

Definition sample_batch (now : Z) : list Action :=
  CronTouch
  :: concat (replicate 15 [Appended sample_touch_line; Readline now]).

Definition sample_world : World ExpiringCache.t :=
  mkWorld main_touches ∅ [].

Definition sample_run (acts : list Action) : Res Scan :=
  scan_syslog "earlier lines" (touchmark_of sample_report) sample_report
    sample_archive acts sample_world.

(** * Properties *)

(** ** Strings *)

Section PyStrFacts.

Lemma str_app_cons (a : Ascii.ascii) (s t : string) :
  String a s +:+ t = String a (s +:+ t).
Proof. reflexivity. Qed.

Lemma str_app_nil_l (s : string) : "" +:+ s = s.
Proof. reflexivity. Qed.

Lemma str_app_nil_r (s : string) : s +:+ "" = s.
Proof.
  induction s as [|a s IH]; [reflexivity|].
  now rewrite str_app_cons, IH.
Qed.

Lemma str_app_assoc (s1 s2 s3 : string) : (s1 +:+ s2) +:+ s3 = s1 +:+ s2 +:+ s3.
Proof.
  induction s1 as [|a s1 IH]; [reflexivity|].
  now rewrite !str_app_cons, IH.
Qed.

Lemma startswith_spec (p s : string) :
  startswith p s = true <-> exists post, s = p +:+ post.
Proof.
  revert s; induction p as [|a p IH]; intros s.
  - split; [intros _; now exists s | reflexivity].
  - destruct s as [|b s].
    + split; [discriminate | intros [post E]; rewrite str_app_cons in E; discriminate].
    + change (startswith (String a p) (String b s))
        with (if Ascii.eqb a b then startswith p s else false).
      destruct (Ascii.eqb_spec a b) as [->|Hab].
      * rewrite IH. split; intros [post E]; exists post.
        -- rewrite str_app_cons. congruence.
        -- rewrite str_app_cons in E. congruence.
      * split; [discriminate |].
        intros [post E]. rewrite str_app_cons in E. congruence.
Qed.

Lemma contains_unfold (sub s : string) :
  contains sub s =
  if startswith sub s then true
  else match s with
       | EmptyString => false
       | String _ s' => contains sub s'
       end.
Proof. destruct s; reflexivity. Qed.

Lemma contains_spec (sub s : string) :
  contains sub s = true <-> Substring sub s.
Proof.
  induction s as [|b s IH]; rewrite contains_unfold.
  - destruct (startswith sub "") eqn:E.
    + apply startswith_spec in E as [post E].
      split; [intros _; exists "", post; exact E | reflexivity].
    + split; [discriminate |].
      intros (pre & post & E').
      destruct pre; [|rewrite str_app_cons in E'; discriminate].
      assert (startswith sub "" = true) by (apply startswith_spec; eauto).
      congruence.
  - destruct (startswith sub (String b s)) eqn:E.
    + apply startswith_spec in E as [post E].
      split; [intros _; exists "", post; exact E | reflexivity].
    + rewrite IH. split.
      * intros (pre & post & ->). now exists (String b pre), post.
      * intros (pre & post & E'). destruct pre as [|c pre].
        -- assert (startswith sub (String b s) = true)
             by (apply startswith_spec; eauto).
           congruence.
        -- rewrite str_app_cons in E'. injection E' as _ ->. now exists pre, post.
Qed.

Lemma contains_false (sub s : string) :
  contains sub s = false <-> ~ Substring sub s.
Proof.
  rewrite <- contains_spec. destruct (contains sub s); split; congruence.
Qed.

Lemma join_cons (x : string) (xs : list string) :
  join (x :: xs) = x +:+ join xs.
Proof.
  unfold join. destruct xs as [|y xs]; simpl; [now rewrite str_app_nil_r|].
  reflexivity.
Qed.

Lemma join_snoc (xs : list string) (x : string) :
  join (xs ++ [x]) = join xs +:+ x.
Proof.
  induction xs as [|y xs IH].
  - simpl. now rewrite join_cons, str_app_nil_r.
  - change ((y :: xs) ++ [x]) with (y :: (xs ++ [x])).
    now rewrite !join_cons, IH, str_app_assoc.
Qed.

Lemma last_cons (a : Ascii.ascii) (s : string) :
  s <> "" -> last (String a s) = last s.
Proof. destruct s; [congruence | reflexivity]. Qed.

Lemma last_app (s d : string) : d <> "" -> last (s +:+ d) = last d.
Proof.
  intros Hd. induction s as [|a s IH]; [reflexivity|].
  rewrite str_app_cons, last_cons; [exact IH|].
  destruct s; [exact Hd | rewrite str_app_cons; discriminate].
Qed.

Lemma newline_free_app (s d : string) :
  newline_free (s +:+ d) = newline_free s && newline_free d.
Proof.
  induction s as [|a s IH]; [reflexivity|].
  rewrite str_app_cons. simpl. rewrite IH. now rewrite andb_assoc.
Qed.

Lemma newline_free_last (s : string) :
  newline_free s = true -> last s <> Some newline.
Proof.
  induction s as [|a s IH]; [discriminate|].
  simpl newline_free. intros [Ha Hs]%andb_prop.
  destruct s as [|b s].
  - simpl. intros [= ->]. now rewrite Ascii.eqb_refl in Ha.
  - rewrite last_cons by discriminate. now apply IH.
Qed.

(** What [split_line] returns makes up its argument. *)
Lemma split_line_app (s d r : string) :
  split_line s = (d, r) -> s = d +:+ r.
Proof.
  revert d r; induction s as [|a s IH]; intros d r; simpl.
  - now intros [= <- <-].
  - destruct (Ascii.eqb a newline).
    + now intros [= <- <-].
    + destruct (split_line s) as [d' r'].
      intros [= <- <-]. rewrite str_app_cons. f_equal. now apply IH.
Qed.

(** The data [split_line] returns holds no newline, or exactly one, at its
    end. *)
Lemma split_line_shape (s d r : string) :
  split_line s = (d, r) ->
  newline_free d = true \/ complete_line d.
Proof.
  revert d r; induction s as [|a s IH]; intros d r; simpl.
  - intros [= <- <-]. now left.
  - destruct (Ascii.eqb_spec a newline) as [->|Ha].
    + intros [= <- <-]. right. now exists "".
    + destruct (split_line s) as [d' r'].
      intros [= <- <-].
      assert (negb (Ascii.eqb a newline) = true) as Hneg
        by (apply negb_true_iff; now apply Ascii.eqb_neq).
      destruct (IH d' r' eq_refl) as [Hfree | (body & -> & Hfree)].
      * left. simpl. now rewrite Hneg, Hfree.
      * right. exists (String a body). split; [reflexivity|].
        simpl. now rewrite Hneg, Hfree.
Qed.

Lemma complete_line_last (l : string) :
  complete_line l -> last l = Some newline.
Proof.
  intros (body & -> & _). now rewrite last_app by discriminate.
Qed.

End PyStrFacts.

(** ** Projections of a trace *)

Section Traces.

Lemma renames_app (t1 t2 : list Effect) :
  renames (t1 ++ t2) = renames t1 ++ renames t2.
Proof.
  induction t1 as [|e t1 IH]; [reflexivity|].
  destruct e; simpl; now rewrite ?IH.
Qed.

Lemma classified_app (t1 t2 : list Effect) :
  classified (t1 ++ t2) = classified t1 ++ classified t2.
Proof.
  induction t1 as [|e t1 IH]; [reflexivity|].
  destruct e; simpl; now rewrite ?IH.
Qed.

Lemma setitems_app (t1 t2 : list Effect) :
  setitems (t1 ++ t2) = setitems t1 ++ setitems t2.
Proof.
  induction t1 as [|e t1 IH]; [reflexivity|].
  destruct e; simpl; now rewrite ?IH.
Qed.

Lemma plain_renames (delta : list Effect) :
  Forall plain delta -> renames delta = [].
Proof.
  induction 1 as [|e delta He _ IH]; [reflexivity|].
  destruct e; simpl in *; tauto.
Qed.

Lemma plain_classified (delta : list Effect) :
  Forall plain delta -> classified delta = [].
Proof.
  induction 1 as [|e delta He _ IH]; [reflexivity|].
  destruct e; simpl in *; tauto.
Qed.

Lemma plain_setitems (delta : list Effect) :
  Forall plain delta -> setitems delta = [].
Proof.
  induction 1 as [|e delta He _ IH]; [reflexivity|].
  destruct e; simpl in *; tauto.
Qed.

(** What handling a line adds to the trace, rotation apart, holds no
    rename and no further classification. *)
Lemma delta_renames (touched : bool) (now : Z) (l : string)
    (delta : list Effect) :
  (if touched then delta = [Setitem now l] else Forall plain delta) ->
  renames delta = [] /\ classified delta = [].
Proof.
  destruct touched; [intros ->; now split|].
  intros Hp. split; [now apply plain_renames | now apply plain_classified].
Qed.

Lemma pending_app (t1 t2 : list Effect) (n : nat) :
  pending (t1 ++ t2) n = pending t2 (pending t1 n).
Proof.
  revert n; induction t1 as [|e t1 IH]; intros n; [reflexivity|].
  destruct e; simpl; apply IH.
Qed.

Lemma rotation_gaps_app (t1 t2 : list Effect) (n : nat) :
  rotation_gaps (t1 ++ t2) n
  = rotation_gaps t1 n ++ rotation_gaps t2 (pending t1 n).
Proof.
  revert n; induction t1 as [|e t1 IH]; intros n; [reflexivity|].
  destruct e; simpl; now rewrite IH.
Qed.

Lemma plain_pending (delta : list Effect) (n : nat) :
  Forall plain delta -> pending delta n = n /\ rotation_gaps delta n = [].
Proof.
  induction 1 as [|e delta He _ IH]; [now split|].
  destruct e; simpl in *; tauto.
Qed.

Lemma recorded_nil : recorded_before_rename [].
Proof. intros [|e pre] src dst post E; discriminate. Qed.

(** Effects that hold no rotation keep the order. *)
Lemma recorded_app_quiet (tr sfx : list Effect) :
  recorded_before_rename tr -> renames sfx = [] ->
  recorded_before_rename (tr ++ sfx).
Proof.
  intros Hr Hs pre src dst post E.
  apply app_eq_inv in E as [(k & E1 & E2) | (k & E1 & E2)].
  - destruct k as [|e k].
    + simpl in E2. subst sfx. discriminate.
    + injection E2 as <- E2. now apply (Hr pre src dst k).
  - subst sfx. rewrite renames_app in Hs. simpl in Hs.
    now apply app_eq_nil in Hs as [_ Hs].
Qed.

(** A rotation directly after the classification and the store of a line
    keeps the order. *)
Lemma recorded_snoc_rename (tr : list Effect) (now : Z) (l a b : string) :
  recorded_before_rename (tr ++ [Classify l; Setitem now l]) ->
  recorded_before_rename ((tr ++ [Classify l; Setitem now l]) ++ [Rename a b]).
Proof.
  intros Hr pre src dst post E.
  apply app_eq_inv in E as [(k & E1 & E2) | (k & E1 & E2)].
  - destruct k as [|e k].
    + simpl in E2. rewrite List.app_nil_r in E1. subst pre. eauto.
    + injection E2 as <- E2. now apply (Hr pre src dst k).
  - destruct k as [|e k].
    + rewrite List.app_nil_r in E1. subst pre. eauto.
    + injection E2 as _ E2. now destruct k.
Qed.

Lemma touch_lines_app (touchmark : string) (l1 l2 : list string) :
  touch_lines touchmark (l1 ++ l2)
  = touch_lines touchmark l1 ++ touch_lines touchmark l2.
Proof. apply filter_app. Qed.

(** The bookkeeping at the start of a session. *)
Lemma disciplined_nil (touchmark : string) : disciplined touchmark 0 0 [].
Proof.
  unfold disciplined; simpl.
  split; [reflexivity|]. split; [reflexivity|]. split; [apply recorded_nil|].
  auto.
Qed.

(** Writes and prints leave the bookkeeping as it is. *)
Lemma disciplined_plain (touchmark : string) (tc fc : nat)
    (tr delta : list Effect) :
  disciplined touchmark tc fc tr -> Forall plain delta ->
  disciplined touchmark tc fc (tr ++ delta).
Proof.
  intros (Hp & Hg & Hr & Hs & Hf & Hl) Hplain. unfold disciplined.
  destruct (plain_pending delta tc Hplain) as [Hp' Hg'].
  rewrite pending_app, rotation_gaps_app, renames_app, setitems_app,
    classified_app, Hp, Hp', Hg'.
  rewrite (plain_renames _ Hplain), (plain_setitems _ Hplain),
    (plain_classified _ Hplain), !List.app_nil_r.
  split; [reflexivity|]. split; [exact Hg|]. split; [|auto].
  apply recorded_app_quiet; [exact Hr | now apply plain_renames].
Qed.

(** A line that is not a touch leaves the counters as they are. *)
Lemma disciplined_other (touchmark : string) (tc fc : nat)
    (tr delta : list Effect) (l : string) :
  disciplined touchmark tc fc tr ->
  contains touchmark l = false -> Forall plain delta ->
  disciplined touchmark tc fc (tr ++ Classify l :: delta).
Proof.
  intros (Hp & Hg & Hr & Hs & Hf & Hl) Hl' Hplain. unfold disciplined.
  destruct (plain_pending delta tc Hplain) as [Hp' Hg'].
  rewrite pending_app, rotation_gaps_app, renames_app, setitems_app,
    classified_app, touch_lines_app, Hp.
  cbn [pending rotation_gaps renames setitems classified].
  rewrite Hp', Hg', (plain_renames _ Hplain), (plain_setitems _ Hplain),
    (plain_classified _ Hplain), !List.app_nil_r.
  unfold touch_lines at 2. rewrite filter_cons_False by congruence.
  rewrite filter_nil, List.app_nil_r.
  split; [reflexivity|]. split; [exact Hg|]. split; [|auto].
  apply recorded_app_quiet; [exact Hr|]. cbn [renames].
  now apply plain_renames.
Qed.

(** A touch line adds one to the counter. *)
Lemma disciplined_touch (touchmark : string) (tc fc : nat)
    (tr : list Effect) (now : Z) (l : string) :
  disciplined touchmark tc fc tr ->
  contains touchmark l = true ->
  disciplined touchmark (S tc) fc (tr ++ [Classify l; Setitem now l]).
Proof.
  intros (Hp & Hg & Hr & Hs & Hf & Hl) Hl'. unfold disciplined.
  rewrite pending_app, rotation_gaps_app, renames_app, setitems_app,
    classified_app, touch_lines_app, Hp.
  cbn [pending rotation_gaps renames setitems classified].
  rewrite !List.app_nil_r, length_app, map_app, Hl. cbn [length map snd].
  unfold touch_lines at 3. rewrite filter_cons_True by assumption.
  rewrite filter_nil.
  split; [reflexivity|]. split; [exact Hg|]. split; [|split; [lia | auto]].
  now apply recorded_app_quiet.
Qed.

(** A rotation after the fifteenth touch resets the counter. *)
Lemma disciplined_rotate (touchmark : string) (fc : nat)
    (tr : list Effect) (now : Z) (l a b : string) :
  disciplined touchmark TOUCH_COUNT_FILE_ROTATE fc
    (tr ++ [Classify l; Setitem now l]) ->
  disciplined touchmark 0 (S fc)
    ((tr ++ [Classify l; Setitem now l]) ++ [Rename a b]).
Proof.
  intros (Hp & Hg & Hr & Hs & Hf & Hl). unfold disciplined.
  rewrite pending_app, rotation_gaps_app, renames_app, setitems_app,
    classified_app, Hp, Hg.
  cbn [pending rotation_gaps renames setitems classified].
  rewrite !List.app_nil_r, length_app. cbn [length].
  rewrite Nat.add_1_r, replicate_S_end.
  split; [reflexivity|]. split; [reflexivity|].
  split; [now apply recorded_snoc_rename|].
  split; [lia|]. split; [lia | exact Hl].
Qed.

End Traces.

(** ** Classification: [process_line] *)

Section Classification.
Context {D : Type} `{Platform D}.

Lemma failed_scan_existsb (l : string) :
  failed_scan l = existsb (fun failure => contains failure l) FAILURES.
Proof.
  unfold failed_scan, FAILURES; simpl.
  destruct (contains "ERROR" l), (contains "WARNING" l), (contains "WARN" l);
    reflexivity.
Qed.

Lemma failed_scan_true (l : string) :
  failed_scan l = true <->
  Substring "ERROR" l \/ Substring "WARNING" l \/ Substring "WARN" l.
Proof.
  rewrite failed_scan_existsb; unfold FAILURES; simpl.
  rewrite <- !contains_spec.
  destruct (contains "ERROR" l), (contains "WARNING" l), (contains "WARN" l);
    simpl; intuition congruence.
Qed.

Lemma failed_scan_false (l : string) :
  failed_scan l = false <->
  ~ Substring "ERROR" l /\ ~ Substring "WARNING" l /\ ~ Substring "WARN" l.
Proof.
  rewrite failed_scan_existsb; unfold FAILURES; simpl.
  rewrite <- !contains_false.
  destruct (contains "ERROR" l), (contains "WARNING" l), (contains "WARN" l);
    simpl; intuition congruence.
Qed.

(** The report file after the two writes of the failure branch. *)
Lemma files_write_write (path a b : string) (w : World D) :
  files (write path b (write path a w)) =
  <[path := contents (files w) path +:+ a +:+ b]> (files w).
Proof.
  unfold write, contents; simpl.
  rewrite lookup_insert_eq; simpl.
  rewrite insert_insert_eq. now rewrite str_app_assoc.
Qed.

(** C2: a line that contains the touch marker is a touch, whatever else it
    contains: [process_line] returns [True] and its only effect is the store
    [touches[now] = line]. *)
Theorem process_line_touch (now : Z) (l touchmark filename : string)
    (w : World D) :
  Substring touchmark l ->
  process_line now l touchmark filename w =
  (true, mkWorld (dict_setitem now now l (touches w)) (files w)
                 (trace w ++ [Setitem now l])).
Proof.
  intros Hsub. unfold process_line.
  apply contains_spec in Hsub. now rewrite Hsub.
Qed.

(** C6: a line with one of [ERROR], [WARNING], [WARN] and without the touch
    marker is a failure: [process_line] returns [False] and the report file
    gains the timestamp followed by the raw line. *)
Theorem process_line_failure (now : Z) (l touchmark filename : string)
    (w : World D) :
  ~ Substring touchmark l ->
  Substring "ERROR" l \/ Substring "WARNING" l \/ Substring "WARN" l ->
  exists w',
    process_line now l touchmark filename w = (false, w') /\
    files w' !! filename =
      Some (contents (files w) filename +:+ strftime now +:+ l) /\
    trace w' = trace w ++ [Write filename (strftime now); Write filename l].
Proof.
  intros Hno Hfail. unfold process_line.
  apply contains_false in Hno. apply failed_scan_true in Hfail.
  rewrite Hno, Hfail. eexists; split; [reflexivity|]. split.
  - rewrite files_write_write. apply lookup_insert_eq.
  - unfold write; simpl. now rewrite <- List.app_assoc.
Qed.

(** C8: a line with neither the touch marker nor a failure keyword is
    ignored: [process_line] returns [False] and leaves the world as it was,
    with no store, no write and no other effect. *)
Theorem process_line_ignore (now : Z) (l touchmark filename : string)
    (w : World D) :
  ~ Substring touchmark l ->
  ~ Substring "ERROR" l -> ~ Substring "WARNING" l -> ~ Substring "WARN" l ->
  process_line now l touchmark filename w = (false, w).
Proof.
  intros Hno H1 H2 H3. unfold process_line.
  apply contains_false in Hno.
  assert (failed_scan l = false) as -> by (apply failed_scan_false; auto).
  now rewrite Hno.
Qed.

(** C10: the frame of [process_line].  A touch line stores once in the
    cache and leaves every file alone; a failure line leaves the cache alone,
    appends to the report file and leaves every other file alone; any other
    line changes nothing.  In each case the cache or the files are
    unchanged. *)
Theorem process_line_frame (now : Z) (l touchmark filename : string)
    (w : World D) :
  let w' := (process_line now l touchmark filename w).2 in
  (Substring touchmark l ->
     touches w' = dict_setitem now now l (touches w) /\
     files w' = files w /\
     trace w' = trace w ++ [Setitem now l]) /\
  (~ Substring touchmark l ->
   Substring "ERROR" l \/ Substring "WARNING" l \/ Substring "WARN" l ->
     touches w' = touches w /\
     files w' =
       <[filename := contents (files w) filename +:+ strftime now +:+ l]>
         (files w) /\
     (forall path, path <> filename -> files w' !! path = files w !! path) /\
     setitems (trace w') = setitems (trace w)) /\
  (~ Substring touchmark l ->
   ~ (Substring "ERROR" l \/ Substring "WARNING" l \/ Substring "WARN" l) ->
     w' = w) /\
  (touches w' = touches w \/ files w' = files w).
Proof.
  intros w'. subst w'. unfold process_line.
  destruct (contains touchmark l) eqn:Etouch.
  - apply contains_spec in Etouch. cbn [snd touches files trace].
    split; [auto|]. split; [tauto|]. split; [tauto|]. now right.
  - apply contains_false in Etouch.
    destruct (failed_scan l) eqn:Efail.
    + apply failed_scan_true in Efail. cbn [snd].
      split; [tauto|]. split; [|split; [tauto | now left]].
      intros _ _. rewrite files_write_write.
      split; [reflexivity|]. split; [reflexivity|]. split.
      * intros path Hne. now rewrite lookup_insert_ne.
      * unfold write; cbn [trace].
        rewrite <- List.app_assoc, setitems_app. apply List.app_nil_r.
    + assert (~ (Substring "ERROR" l \/ Substring "WARNING" l \/
                 Substring "WARN" l)) as Hnone
        by (rewrite <- failed_scan_true; congruence).
      cbn [snd]. split; [tauto|]. split; [tauto|]. split; [auto | now left].
Qed.

End Classification.

(** ** The expiring cache of the spec *)

Section CacheFacts.
Import ExpiringCache.

Lemma filter_all {A} (P : A -> Prop) `{forall x, Decision (P x)} (l : list A) :
  Forall P l -> filter P l = l.
Proof.
  induction 1 as [|x l Hx Hl IH]; [reflexivity|].
  rewrite filter_cons_True by assumption. now rewrite IH.
Qed.

(** One insertion keeps the entry count within a capacity of at least 1. *)
Lemma Insert_bound (now ts : Z) (v : string) (c : t) :
  1 <= capacity c ->
  length (entries c) <= capacity c ->
  length (entries (Insert now ts v c)) <= capacity c.
Proof.
  intros Hcap Hlen. unfold Insert; cbn [entries evict].
  set (others := filter (fun e => e.1 <> ts)
                   (filter (fresh (window c) now) (entries c))).
  assert (length others <= length (entries c)) as Hothers.
  { unfold others. etransitivity; [apply length_filter|apply length_filter]. }
  rewrite length_app; simpl.
  case_decide as Hfull.
  - destruct others as [|e others']; simpl in *; lia.
  - lia.
Qed.

Lemma apply_bound (c : t) (o : op) :
  1 <= capacity c ->
  length (entries c) <= capacity c ->
  capacity (apply c o) = capacity c /\
  length (entries (apply c o)) <= capacity c.
Proof.
  intros Hcap Hlen. destruct o as [now ts v|now]; simpl.
  - split; [reflexivity | now apply Insert_bound].
  - split; [reflexivity|].
    etransitivity; [apply length_filter | exact Hlen].
Qed.

Lemma foldl_apply_bound (ops : list op) (c : t) :
  1 <= capacity c ->
  length (entries c) <= capacity c ->
  capacity (foldl apply c ops) = capacity c /\
  length (entries (foldl apply c ops)) <= capacity c.
Proof.
  revert c; induction ops as [|o ops IH]; intros c Hcap Hlen; simpl.
  - split; [reflexivity | exact Hlen].
  - destruct (apply_bound c o Hcap Hlen) as [Hc Hl].
    destruct (IH (apply c o)) as [Hc' Hl']; [lia | lia |].
    split; [congruence | lia].
Qed.

(** With no stale entry and a new timestamp, an insertion into a full
    cache drops the head of the insertion order. *)
Lemma Insert_full (now ts : Z) (v : string) (c : t) :
  length (entries c) = capacity c ->
  Forall (fresh (window c) now) (entries c) ->
  Forall (fun e => e.1 <> ts) (entries c) ->
  entries (Insert now ts v c) = tail (entries c) ++ [(ts, v)].
Proof.
  intros Hlen Hfresh Hkeys. unfold Insert; cbn [entries evict].
  rewrite (filter_all _ _ Hfresh), (filter_all _ _ Hkeys).
  rewrite decide_True by lia. reflexivity.
Qed.

Lemma filter_none {A} (P : A -> Prop) `{forall x, Decision (P x)} (l : list A) :
  Forall (fun x => ~ P x) l -> filter P l = [].
Proof.
  induction 1 as [|x l Hx Hl IH]; [reflexivity|].
  now rewrite filter_cons_False.
Qed.

(** An insertion when every stored entry has gone stale. *)
Lemma Insert_stale (now ts : Z) (v : string) (c : t) :
  1 <= capacity c ->
  Forall (fun e => ~ fresh (window c) now e) (entries c) ->
  entries (Insert now ts v c) = [(ts, v)].
Proof.
  intros Hcap Hstale. unfold Insert; cbn [entries evict].
  rewrite (filter_none _ _ Hstale), filter_nil. cbn [length].
  now rewrite decide_False by lia.
Qed.

(** An insertion of a new timestamp while there is room and nothing is
    stale. *)
Lemma Insert_room (now ts : Z) (v : string) (c : t) :
  length (entries c) < capacity c ->
  Forall (fresh (window c) now) (entries c) ->
  Forall (fun e => e.1 <> ts) (entries c) ->
  entries (Insert now ts v c) = entries c ++ [(ts, v)].
Proof.
  intros Hlen Hfresh Hkeys. unfold Insert; cbn [entries evict].
  rewrite (filter_all _ _ Hfresh), (filter_all _ _ Hkeys).
  now rewrite decide_False by lia.
Qed.

(** C3: with a window of 5 seconds and room for at least two entries, an
    insertion at time 0 and one at time 6 leave a size of 1 (asked while
    the second entry is still within the window); [Size] counts exactly
    the entries not older than the window at the moment of the call, keeps
    only those, and [Insert] starts from the same eviction. *)
Theorem size_counts_window (cap : nat) (v1 v2 : string) (now : Z) (c : t)
    (ts : Z) (v : string) :
  2 <= cap -> (6 <= now <= 11)%Z ->
  (Size now (Insert 6 6 v2 (Insert 0 0 v1 (empty 5 cap)))).1 = 1 /\
  (Size now c).1 = length (filter (fresh (window c) now) (entries c)) /\
  entries (Size now c).2 = filter (fresh (window c) now) (entries c) /\
  Forall (fresh (window c) now) (entries (Size now c).2) /\
  (forall e, e ∈ entries (Insert now ts v c) ->
             e = (ts, v) \/ (fresh (window c) now e /\ e ∈ entries c)).
Proof.
  intros Hcap Hnow. split; [|split; [|split; [|split]]].
  - assert (entries (Insert 0 0 v1 (empty 5 cap)) = [(0%Z, v1)]) as E1.
    { apply (Insert_room 0 0 v1 (empty 5 cap)); simpl; [lia | constructor..]. }
    assert (entries (Insert 6 6 v2 (Insert 0 0 v1 (empty 5 cap)))
            = [(6%Z, v2)]) as E2.
    { apply Insert_stale; [simpl; lia|]. rewrite E1.
      repeat constructor. unfold fresh; simpl; lia. }
    unfold Size, evict; cbn [fst entries]. rewrite E2.
    rewrite filter_cons_True by (unfold fresh; simpl; lia).
    reflexivity.
  - reflexivity.
  - reflexivity.
  - cbn [Size snd evict entries]. apply Forall_forall.
    intros e He. now apply list_elem_of_filter in He.
  - intros e He. unfold Insert in He; cbn [entries evict] in He.
    apply elem_of_app in He as [He|He].
    + right.
      assert (e ∈ filter (fun e => e.1 <> ts)
                    (filter (fresh (window c) now) (entries c))) as He'.
      { case_decide; [|exact He].
        destruct (filter _ (filter _ _)); [exact He|].
        simpl in He. now apply elem_of_cons; right. }
      apply list_elem_of_filter in He' as [_ He'].
      now apply list_elem_of_filter in He'.
    + left. now apply list_elem_of_singleton in He.
Qed.

Lemma size_counts_window_witness :
  (Size 8 (Insert 6 6 "b" (Insert 0 0 "a" (empty 5 2)))).1 = 1.
Proof.
  apply (size_counts_window 2 "a" "b" 8 (empty 5 2) 0 ""); lia.
Defined.

(** C4: the entry count never exceeds the capacity; an insertion into a
    full cache evicts the oldest-inserted entry although none is stale; and
    with capacity 2 and a window that covers all three, three insertions
    leave exactly the two most recent entries. *)
Theorem capacity_bound (w : Z) (cap : nat) (ops : list op) (c : t)
    (now ts : Z) (v v1 v2 v3 : string) (t1 t2 t3 : Z) :
  1 <= cap ->
  length (entries c) = capacity c ->
  Forall (fresh (window c) now) (entries c) ->
  Forall (fun e => e.1 <> ts) (entries c) ->
  (t1 < t2 < t3)%Z -> (t3 - t1 <= w)%Z ->
  length (entries (foldl apply (empty w cap) ops)) <= cap /\
  entries (Insert now ts v c) = tail (entries c) ++ [(ts, v)] /\
  entries (Insert t3 t3 v3 (Insert t2 t2 v2 (Insert t1 t1 v1 (empty w 2))))
    = [(t2, v2); (t3, v3)].
Proof.
  intros Hcap Hlen Hfresh Hkeys Hts Hw. split; [|split].
  - destruct (foldl_apply_bound ops (empty w cap)) as [_ Hb];
      simpl; [lia | lia | exact Hb].
  - now apply Insert_full.
  - assert (entries (Insert t1 t1 v1 (empty w 2)) = [(t1, v1)]) as E1.
    { apply (Insert_room t1 t1 v1 (empty w 2)); simpl; [lia | constructor..]. }
    assert (entries (Insert t2 t2 v2 (Insert t1 t1 v1 (empty w 2)))
            = [(t1, v1); (t2, v2)]) as E2.
    { rewrite Insert_room; rewrite E1; [reflexivity | simpl; lia | |];
        repeat constructor; unfold fresh; simpl; lia. }
    rewrite Insert_full; rewrite E2; [reflexivity | reflexivity | |];
      repeat constructor; unfold fresh; simpl; lia.
Qed.

Lemma capacity_bound_witness :
  length (entries (foldl apply (empty 100 2)
            [OpInsert 1 1 "a"; OpInsert 2 2 "b"; OpSize 3; OpInsert 4 4 "c"]))
    <= 2 /\
  entries (Insert 3 3 "c" (mk 100 2 [(1%Z, "a"); (2%Z, "b")]))
    = tail [(1%Z, "a"); (2%Z, "b")] ++ [(3%Z, "c")] /\
  entries (Insert 3 3 "c" (Insert 2 2 "b" (Insert 1 1 "a" (empty 100 2))))
    = [(2%Z, "b"); (3%Z, "c")].
Proof.
  apply (capacity_bound 100 2
           [OpInsert 1 1 "a"; OpInsert 2 2 "b"; OpSize 3; OpInsert 4 4 "c"]
           (mk 100 2 [(1%Z, "a"); (2%Z, "b")]) 3 3 "c" "a" "b" "c" 1 2 3).
  - lia.
  - reflexivity.
  - repeat constructor; unfold fresh; simpl; lia.
  - repeat constructor; simpl; lia.
  - lia.
  - lia.
Defined.

End CacheFacts.

(** ** The scan loop *)

Section ScanFacts.
Context {D : Type} `{Platform D}.
Variables touchmark filename logfile : string.

Local Abbreviation step' := (step touchmark filename logfile).
Local Abbreviation run' := (run touchmark filename logfile).

(** Invariants of a run: [P] holds of every state the loop returns to and
    [Q] of the state an exception leaves from. *)
Lemma run_invariant (P Q : Scan -> Prop) (acts : list Action) (s0 : Scan) :
  P s0 ->
  (forall a s s', P s -> step' a s = Ok s' -> P s') ->
  (forall a s e s', P s -> step' a s = Raised e s' -> Q s') ->
  match run' acts s0 with
  | Ok s => P s
  | Raised _ s => Q s
  end.
Proof.
  intros H0 Hok Hraise. revert s0 H0.
  induction acts as [|a acts IH]; intros s0 H0; simpl; [exact H0|].
  destruct (step' a s0) as [s1|e s1] eqn:E.
  - apply IH. eapply Hok; eauto.
  - eapply Hraise; eauto.
Qed.

(** The name the [k]-th rotation of a fresh session gives the report
    file, counting from 0. *)
Lemma seq_names_snoc (n : nat) (g : nat -> string * string) :
  map g (seq 0 (S n)) = map g (seq 0 n) ++ [g n].
Proof. now rewrite seq_S, map_app. Qed.

Lemma report_trace (now : Z) (w : World D) :
  exists d n,
    trace (report now filename w) =
      trace w ++ [Print "Run report now..."; Write filename (strftime now);
                  Write filename (str n +:+ NL)] /\
    touches (report now filename w) = d /\
    files (report now filename w) =
      <[filename := contents (files w) filename +:+ strftime now
                    +:+ str n +:+ NL]> (files w).
Proof.
  unfold report.
  destruct (dict_len now (touches (write filename (strftime now)
             (print "Run report now..." w)))) as [n d] eqn:E.
  exists d, n. split; [|split].
  - unfold write, print; cbn [trace]. now rewrite <- !List.app_assoc.
  - reflexivity.
  - unfold write, print, contents; cbn [files].
    rewrite lookup_insert_eq; simpl.
    now rewrite insert_insert_eq, str_app_assoc.
Qed.

(** What [process_line] does to the trace and to the files. *)
Lemma process_line_outcome (now : Z) (l : string) (w : World D) :
  exists delta,
    (process_line now l touchmark filename w).1 = contains touchmark l /\
    trace (process_line now l touchmark filename w).2 = trace w ++ delta /\
    (if (process_line now l touchmark filename w).1
     then delta = [Setitem now l]
     else Forall plain delta) /\
    (forall p, p <> filename ->
       files (process_line now l touchmark filename w).2 !! p = files w !! p).
Proof.
  unfold process_line.
  destruct (contains touchmark l); [|destruct (failed_scan l)]; cbn [fst snd].
  - exists [Setitem now l]. auto.
  - exists [Write filename (strftime now); Write filename l].
    split; [reflexivity|]. split; [|split].
    + unfold write; cbn [trace]. now rewrite <- List.app_assoc.
    + repeat constructor.
    + intros p Hp. rewrite files_write_write. now rewrite lookup_insert_ne.
  - exists []. split; [reflexivity|].
    split; [now rewrite List.app_nil_r | split; [constructor | auto]].
Qed.

(** The three ways the handling of a complete line ends: no rotation due,
    a rotation that fails because the report file is absent, a rotation
    that renames it. *)
Lemma got_line_outcome (now : Z) (f' : File) (l : string) (s : Scan) :
  exists (touched : bool) (delta : list Effect) (w1 : World D),
    touched = contains touchmark l /\
    trace w1 = trace (world s) ++ Classify l :: delta /\
    (if touched then delta = [Setitem now l] else Forall plain delta) /\
    (forall p, p <> filename -> files w1 !! p = files (world s) !! p) /\
    let tc := if touched then S (touch_count s) else touch_count s in
    ((tc <> TOUCH_COUNT_FILE_ROTATE /\
      got_line now touchmark filename logfile f' l s
        = Ok (mkScan f' "" tc (file_count s) w1)) \/
     (tc = TOUCH_COUNT_FILE_ROTATE /\ files w1 !! filename = None /\
      got_line now touchmark filename logfile f' l s
        = Raised OSError (mkScan f' l tc (file_count s) w1)) \/
     (tc = TOUCH_COUNT_FILE_ROTATE /\
      exists c w2,
        files w1 !! filename = Some c /\
        got_line now touchmark filename logfile f' l s
          = Ok (mkScan f' "" 0 (S (file_count s)) w2) /\
        trace w2 = trace w1
                   ++ [Rename filename (rotated logfile (file_count s) (files w1))] /\
        files w2 = <[rotated logfile (file_count s) (files w1) := c]>
                     (delete filename (files w1)))).
Proof.
  unfold got_line.
  destruct (process_line_outcome now l (log (Classify l) (world s)))
    as (delta & Hfst & Htr & Hdelta & Hfiles).
  destruct (process_line now l touchmark filename (log (Classify l) (world s)))
    as [touched w1] eqn:Epl.
  cbn [fst snd] in *.
  exists touched, delta, w1. split; [exact Hfst|].
  split; [|split; [exact Hdelta | split; [exact Hfiles|]]].
  { rewrite Htr. unfold log; cbn [trace]. now rewrite <- List.app_assoc. }
  cbv zeta.
  set (tc := if touched then S (touch_count s) else touch_count s).
  destruct (Nat.eqb_spec tc TOUCH_COUNT_FILE_ROTATE) as [Etc|Etc]; [|now left].
  right. unfold createRotatingLog, os_rename, os_path_exists, rotated.
  destruct (bool_decide (is_Some (files w1 !! logfile))); cbn [negb];
    (destruct (files w1 !! filename) as [c|] eqn:Efile;
     [right; split; [exact Etc|]; eexists c, _;
      split; [reflexivity|]; split; [reflexivity|]; split; reflexivity
     |left; auto]).
Qed.

(** The ways one scheduling step ends. *)
Lemma step_outcome (a : Action) (s : Scan) :
  (exists data, a = Appended data /\
     step' a s = Ok (mkScan (file_append data (f s)) (line s) (touch_count s)
                            (file_count s) (world s))) \/
  (exists now f', a = Readline now /\ readline (f s) = ("", f') /\
     step' a s = Ok s) \/
  (exists now data f', a = Readline now /\ readline (f s) = (data, f') /\
     data <> "" /\ incomplete (line s +:+ data) = true /\
     step' a s = Ok (mkScan f' (line s +:+ data) (touch_count s)
                            (file_count s) (world s))) \/
  (exists now data f', a = Readline now /\ readline (f s) = (data, f') /\
     data <> "" /\ incomplete (line s +:+ data) = false /\
     step' a s = got_line now touchmark filename logfile f' (line s +:+ data) s) \/
  (exists w' delta,
     step' a s = Ok (mkScan (f s) (line s) (touch_count s) (file_count s) w') /\
     trace w' = trace (world s) ++ delta /\ Forall plain delta /\
     (forall p, p <> filename -> files w' !! p = files (world s) !! p) /\
     appended [a] = "").
Proof.
  destruct a as [data|now|now|]; cbn [step].
  - left. eauto.
  - right. unfold readline_step.
    destruct (readline (f s)) as [data f'] eqn:Erl.
    destruct (String.eqb_spec data "") as [->|Hdata]; [left; eauto|].
    right. destruct (incomplete (line s +:+ data)) eqn:Einc.
    + left. exists now, data, f'. auto.
    + right; left. exists now, data, f'. auto.
  - do 4 right. unfold with_world.
    destruct (report_trace now (world s)) as (d & n & Htr & _ & Hfiles).
    eexists _, _. split; [reflexivity|]. split; [exact Htr|].
    split; [|split; [|reflexivity]].
    + repeat constructor.
    + intros p Hp. rewrite Hfiles. now rewrite lookup_insert_ne.
  - do 4 right. unfold with_world, cron_touch.
    destruct (files (world s) !! filename) eqn:Efile.
    + exists (world s), []. split; [reflexivity|].
      split; [now rewrite List.app_nil_r | split; [constructor | auto]].
    + eexists _, []. split; [reflexivity|]. cbn [trace files].
      split; [now rewrite List.app_nil_r | split; [constructor|]].
      split; [|reflexivity].
      intros p Hp. now rewrite lookup_insert_ne.
Qed.

(** *** Rotated-file names *)

(** In a session that starts with no archive, the renames performed so far
    are those of [rotation_name], and the archive exists from the first
    rotation on. *)
Lemma rotation_invariant (history : string) (acts : list Action)
    (w : World D) :
  renames (trace w) = [] ->
  files w !! logfile = None ->
  filename <> logfile ->
  let s := final (scan_syslog history touchmark filename logfile acts w) in
  renames (trace (world s))
    = map (rotation_name filename logfile) (seq 0 (file_count s)).
Proof.
  intros Hfresh Hnone Hne.
  set (Q := fun s : @Scan D =>
    renames (trace (world s))
      = map (rotation_name filename logfile) (seq 0 (file_count s))).
  set (P := fun s : @Scan D =>
    Q s /\
    (file_count s = 0 -> files (world s) !! logfile = None) /\
    (file_count s <> 0 -> is_Some (files (world s) !! logfile))).
  assert (match run' acts (scan_start history w) with
          | Ok s => P s
          | Raised _ s => Q s
          end) as Hrun.
  { apply run_invariant.
    - unfold P, Q, scan_start; cbn. rewrite Hfresh.
      split; [reflexivity | split; [auto | intros []; reflexivity]].
    - intros a s s' (HQ & H0 & H1) Hstep. unfold P, Q in *.
      destruct (step_outcome a s)
        as [(data & _ & E) | [(now & f' & _ & _ & E)
          | [(now & data & f' & _ & _ & _ & _ & E)
          | [(now & data & f' & _ & _ & _ & _ & E)
          | (w' & delta & E & Htr & Hplain & Hfiles & _)]]]];
        rewrite E in Hstep.
      + injection Hstep as <-. cbn [world file_count]. auto.
      + injection Hstep as <-. auto.
      + injection Hstep as <-. cbn [world file_count]. auto.
      + destruct (got_line_outcome now f' (line s +:+ data) s)
          as (touched & delta & w1 & _ & Htr & Hdelta & Hfiles & Hout).
        apply delta_renames in Hdelta as [Hren _].
        assert (renames (trace w1) = renames (trace (world s))) as Hren1.
        { rewrite Htr, renames_app. cbn [renames]. rewrite Hren.
          apply List.app_nil_r. }
        cbv zeta in Hout.
        destruct Hout as [[_ E'] | [(_ & _ & E') | (_ & c & w2 & Hc & E' & Htr2 & Hfs2)]];
          rewrite E' in Hstep; [|discriminate|]; injection Hstep as <-; cbn [world file_count].
        * rewrite Hren1, !Hfiles by auto. auto.
        * split; [|split; [discriminate|]].
          -- rewrite Htr2, renames_app, Hren1, HQ, seq_names_snoc.
             cbn [renames]. f_equal. f_equal. unfold rotated, rotation_name.
             rewrite Hfiles by auto.
             destruct (file_count s) as [|k].
             ++ rewrite H0 by reflexivity.
                now rewrite bool_decide_eq_false_2 by (intros [? ?]; discriminate).
             ++ now rewrite bool_decide_eq_true_2 by (apply H1; discriminate).
          -- intros _. rewrite Hfs2. rewrite lookup_insert.
             case_decide; [eauto|].
             rewrite lookup_delete_ne by auto.
             rewrite Hfiles by auto.
             unfold rotated in *. rewrite Hfiles in * by auto.
             destruct (file_count s) as [|k].
             ++ rewrite bool_decide_eq_false_2 in *
                  by (rewrite H0 by reflexivity; intros [? ?]; discriminate).
                congruence.
             ++ apply H1. discriminate.
      + injection Hstep as <-. cbn [world file_count].
        rewrite Htr, renames_app, (plain_renames _ Hplain), List.app_nil_r.
        rewrite !Hfiles by auto. auto.
    - intros a s e s' (HQ & H0 & H1) Hstep. unfold Q in *.
      destruct (step_outcome a s)
        as [(data & _ & E) | [(now & f' & _ & _ & E)
          | [(now & data & f' & _ & _ & _ & _ & E)
          | [(now & data & f' & _ & _ & _ & _ & E)
          | (w' & delta & E & _)]]]];
        rewrite E in Hstep; try discriminate.
      destruct (got_line_outcome now f' (line s +:+ data) s)
        as (touched & delta & w1 & _ & Htr & Hdelta & Hfiles & Hout).
      apply delta_renames in Hdelta as [Hren _].
      cbv zeta in Hout.
      destruct Hout as [[_ E'] | [(_ & _ & E') | (_ & c & w2 & _ & E' & _)]];
        rewrite E' in Hstep; try discriminate.
      simplify_eq. cbn [world file_count].
      rewrite Htr, renames_app. cbn [renames]. rewrite Hren.
      now rewrite List.app_nil_r. }
  unfold scan_syslog. cbv zeta.
  destruct (run' acts (scan_start history w)); cbn [final];
    [apply Hrun | exact Hrun].
Qed.

(** *** The rotation trigger *)

(** Handling the line that brings the counter to the threshold: the line
    is classified and stored, then the report file is renamed, and the
    counter is back at 0, all in the handling of that line. *)
Lemma got_line_rotates (now : Z) (f' : File) (l c : string) (s : Scan) :
  S (touch_count s) = TOUCH_COUNT_FILE_ROTATE ->
  Substring touchmark l ->
  files (world s) !! filename = Some c ->
  exists w2,
    got_line now touchmark filename logfile f' l s
      = Ok (mkScan f' "" 0 (S (file_count s)) w2) /\
    trace w2 = trace (world s)
               ++ [Classify l; Setitem now l;
                   Rename filename
                     (rotated logfile (file_count s) (files (world s)))].
Proof.
  intros Htc Hsub Hc. apply contains_spec in Hsub.
  unfold got_line, process_line, log; cbn [touches files trace].
  rewrite Hsub, Htc. cbn [Nat.eqb TOUCH_COUNT_FILE_ROTATE].
  unfold createRotatingLog, os_rename, os_path_exists, rotated;
    cbn [files trace touches].
  rewrite Hc.
  destruct (bool_decide (is_Some (files (world s) !! logfile))); cbn [negb];
    eexists; (split; [reflexivity|]); cbn [trace];
    now rewrite <- !List.app_assoc.
Qed.

(** Between lines the counter is below the threshold and the bookkeeping
    holds; an exception leaves from the rotation, with the counter at the
    threshold. *)
Lemma discipline_invariant (history : string) (acts : list Action)
    (w : World D) :
  trace w = [] ->
  match run' acts (scan_start history w) with
  | Ok s =>
      touch_count s < TOUCH_COUNT_FILE_ROTATE /\
      disciplined touchmark (touch_count s) (file_count s) (trace (world s))
  | Raised _ s =>
      touch_count s = TOUCH_COUNT_FILE_ROTATE /\
      disciplined touchmark (touch_count s) (file_count s) (trace (world s))
  end.
Proof.
  intros Hfresh.
  apply (run_invariant
    (fun s => touch_count s < TOUCH_COUNT_FILE_ROTATE /\
       disciplined touchmark (touch_count s) (file_count s) (trace (world s)))
    (fun s => touch_count s = TOUCH_COUNT_FILE_ROTATE /\
       disciplined touchmark (touch_count s) (file_count s) (trace (world s)))).
  - unfold scan_start; cbn [touch_count file_count world]. rewrite Hfresh.
    split; [unfold TOUCH_COUNT_FILE_ROTATE; lia | apply disciplined_nil].
  - intros a s s' [Hlt Hd] Hstep.
    destruct (step_outcome a s)
      as [(data & _ & E) | [(now & f' & _ & _ & E)
        | [(now & data & f' & _ & _ & _ & _ & E)
        | [(now & data & f' & _ & _ & _ & _ & E)
        | (w' & delta & E & Htr & Hplain & _)]]]];
      rewrite E in Hstep.
    + injection Hstep as <-. now split.
    + injection Hstep as <-. now split.
    + injection Hstep as <-. now split.
    + destruct (got_line_outcome now f' (line s +:+ data) s)
        as (touched & delta & w1 & Ht & Htr & Hdelta & _ & Hout).
      cbv zeta in Hout.
      destruct touched.
      * subst delta. symmetry in Ht.
        pose proof (disciplined_touch _ _ _ _ now _ Hd Ht) as Hd1.
        rewrite <- Htr in Hd1.
        destruct Hout as [[Hne E'] | [(_ & _ & E')
          | (Htc & c & w2 & _ & E' & Htr2 & _)]];
          rewrite E' in Hstep; [|discriminate|]; injection Hstep as <-;
          cbn [touch_count file_count world].
        -- split; [lia | exact Hd1].
        -- split; [unfold TOUCH_COUNT_FILE_ROTATE; lia|].
           rewrite Htr2, Htr. apply disciplined_rotate.
           rewrite <- Htr, <- Htc. exact Hd1.
      * symmetry in Ht.
        pose proof (disciplined_other _ _ _ _ _ _ Hd Ht Hdelta) as Hd1.
        rewrite <- Htr in Hd1.
        destruct Hout as [[Hne E'] | [(Htc & _) | (Htc & _)]]; [|lia|lia].
        rewrite E' in Hstep. injection Hstep as <-. now split.
    + injection Hstep as <-. cbn [touch_count file_count world].
      split; [exact Hlt|]. rewrite Htr. now apply disciplined_plain.
  - intros a s e s' [Hlt Hd] Hstep.
    destruct (step_outcome a s)
      as [(data & _ & E) | [(now & f' & _ & _ & E)
        | [(now & data & f' & _ & _ & _ & _ & E)
        | [(now & data & f' & _ & _ & _ & _ & E)
        | (w' & delta & E & _)]]]];
      rewrite E in Hstep; try discriminate.
    destruct (got_line_outcome now f' (line s +:+ data) s)
      as (touched & delta & w1 & Ht & Htr & Hdelta & _ & Hout).
    cbv zeta in Hout.
    destruct touched.
    + subst delta. symmetry in Ht.
      pose proof (disciplined_touch _ _ _ _ now _ Hd Ht) as Hd1.
      rewrite <- Htr in Hd1.
      destruct Hout as [[_ E'] | [(Htc & _ & E') | (_ & c & w2 & _ & E' & _)]];
        rewrite E' in Hstep; try discriminate.
      simplify_eq. cbn [touch_count file_count world]. now split.
    + destruct Hout as [[_ E'] | [(Htc & _) | (Htc & _)]]; [|lia|lia].
      rewrite E' in Hstep. discriminate.
Qed.

(** C1 (as the code has it): in a session that starts with an empty
    trace and no archive, a rotation is done for every 15 touch lines
    classified, the rotations are as many as [file_count], each renames
    the report file, the first to the archive name and the one with index
    [k >= 1] (the second has index 1) to the archive name followed by
    [.k]: the suffixes start at 1 and go up by one per rotation. *)
Theorem rotation_names (history : string) (acts : list Action)
    (w : World D) :
  trace w = [] ->
  files w !! logfile = None ->
  filename <> logfile ->
  let s := final (scan_syslog history touchmark filename logfile acts w) in
  length (touch_lines touchmark (classified (trace (world s))))
    = TOUCH_COUNT_FILE_ROTATE * file_count s + touch_count s /\
  touch_count s <= TOUCH_COUNT_FILE_ROTATE /\
  length (renames (trace (world s))) = file_count s /\
  forall k src dst,
    renames (trace (world s)) !! k = Some (src, dst) ->
    src = filename /\
    dst = match k with
          | 0 => logfile
          | S _ => (logfile +:+ ".") +:+ str k
          end.
Proof.
  intros Hfresh Hnone Hne s.
  assert (renames (trace w) = []) as Hren by now rewrite Hfresh.
  pose proof (rotation_invariant history acts w Hren Hnone Hne) as Hinv.
  cbv zeta in Hinv. fold s in Hinv.
  assert (touch_count s <= TOUCH_COUNT_FILE_ROTATE /\
          disciplined touchmark (touch_count s) (file_count s)
            (trace (world s))) as (Hle & _ & _ & _ & Hs & Hf & Hl).
  { pose proof (discipline_invariant history acts w Hfresh) as Hd.
    subst s. unfold scan_syslog.
    destruct (run' acts (scan_start history w)); cbn [final];
      destruct Hd as [Htc Hd]; (split; [lia | exact Hd]). }
  split; [rewrite <- Hl, length_map, Hs; lia|].
  split; [exact Hle|]. rewrite Hinv. split.
  - now rewrite length_map, length_seq.
  - intros k src dst Hk.
    rewrite list_lookup_fmap in Hk.
    destruct (seq 0 (file_count s) !! k) as [i|] eqn:Ei; [|discriminate].
    apply lookup_seq in Ei as [-> _].
    injection Hk as <- <-. now split.
Qed.

(** C5: the touch counter and the rotations.  The counter never exceeds
    15 and is below it whenever the loop is between lines; every touch line
    classified is stored once, and their number is 15 for each rotation
    done plus the counter (so the counter goes up by one per touch line and
    is reset by a rotation); between consecutive rotations lie exactly 15
    stores; each rename comes directly after the classification and the
    store of the line that brought the counter to 15; and handling that
    line performs the store and then the rename and leaves the counter
    at 0. *)
Theorem rotation_discipline (history : string) (acts : list Action)
    (w : World D) :
  trace w = [] ->
  let r := scan_syslog history touchmark filename logfile acts w in
  let tr := trace (world (final r)) in
  touch_count (final r) <= TOUCH_COUNT_FILE_ROTATE /\
  (forall s, r = Ok s -> touch_count s < TOUCH_COUNT_FILE_ROTATE) /\
  map snd (setitems tr) = touch_lines touchmark (classified tr) /\
  length (touch_lines touchmark (classified tr))
    = TOUCH_COUNT_FILE_ROTATE * length (renames tr) + touch_count (final r) /\
  rotation_gaps tr 0
    = replicate (length (renames tr)) TOUCH_COUNT_FILE_ROTATE /\
  recorded_before_rename tr /\
  file_count (final r) = length (renames tr) /\
  (forall now f' l c s,
     S (touch_count s) = TOUCH_COUNT_FILE_ROTATE ->
     Substring touchmark l ->
     files (world s) !! filename = Some c ->
     exists w2,
       got_line now touchmark filename logfile f' l s
         = Ok (mkScan f' "" 0 (S (file_count s)) w2) /\
       trace w2 = trace (world s)
                  ++ [Classify l; Setitem now l;
                      Rename filename
                        (rotated logfile (file_count s) (files (world s)))]).
Proof.
  intros Hfresh r tr.
  pose proof (discipline_invariant history acts w Hfresh) as Hinv.
  assert (touch_count (final r) <= TOUCH_COUNT_FILE_ROTATE /\
          (forall s, r = Ok s -> touch_count s < TOUCH_COUNT_FILE_ROTATE) /\
          disciplined touchmark (touch_count (final r)) (file_count (final r)) tr)
    as (Hle & Hlt & Hp & Hg & Hr & Hs & Hf & Hl).
  { subst tr r. unfold scan_syslog.
    destruct (run' acts (scan_start history w)) as [s|e s];
      cbn [final]; destruct Hinv as [Htc Hd].
    - split; [lia|]. split; [|exact Hd]. intros s' [= <-]. exact Htc.
    - split; [lia|]. split; [|exact Hd]. discriminate. }
  split; [exact Hle|]. split; [exact Hlt|]. split; [exact Hl|].
  split; [now rewrite <- Hl, length_map|].
  split; [exact Hg|]. split; [exact Hr|]. split; [exact Hf|].
  intros now f' l c s. apply got_line_rotates.
Qed.

(** *** The tailer *)

Lemma readline_content (g g' : File) (data : string) :
  readline g = (data, g') ->
  before g' = before g +:+ data /\
  before g' +:+ after g' = before g +:+ after g /\
  (newline_free data = true \/ complete_line data).
Proof.
  unfold readline. destruct (split_line (after g)) as [d r] eqn:E.
  intros [= <- <-]. cbn [before after].
  split; [reflexivity|]. split.
  - rewrite str_app_assoc. f_equal. symmetry. now apply split_line_app.
  - eapply split_line_shape; eauto.
Qed.

Lemma incomplete_true (l : string) :
  incomplete l = true <-> last l <> Some newline.
Proof.
  unfold incomplete. destruct (last l) as [c|]; [|now split].
  destruct (Ascii.eqb_spec c newline) as [->|Hc]; simpl.
  - split; [discriminate | congruence].
  - split; [intros _ [= ?]; congruence | reflexivity].
Qed.

(** The handling of a line keeps the new position of the file and
    classifies that line and no other. *)
Lemma got_line_tail (now : Z) (f' : File) (l : string) (s : Scan) :
  let r := got_line now touchmark filename logfile f' l s in
  f (final r) = f' /\
  classified (trace (world (final r))) = classified (trace (world s)) ++ [l] /\
  (forall s', r = Ok s' -> line s' = "").
Proof.
  destruct (got_line_outcome now f' l s)
    as (touched & delta & w1 & _ & Htr & Hdelta & _ & Hout).
  apply delta_renames in Hdelta as [_ Hcl].
  assert (classified (trace w1) = classified (trace (world s)) ++ [l]) as Hcl1.
  { rewrite Htr, classified_app. cbn [classified]. now rewrite Hcl. }
  cbv zeta in *.
  destruct Hout as [[_ E] | [(_ & _ & E) | (_ & c & w2 & _ & E & Htr2 & _)]];
    rewrite E; cbn [final f world].
  - split; [reflexivity|]. split; [exact Hcl1|]. now intros s' [= <-].
  - split; [reflexivity|]. split; [exact Hcl1|]. discriminate.
  - split; [reflexivity|]. split; [|now intros s' [= <-]].
    rewrite Htr2, classified_app, Hcl1. cbn [classified].
    now rewrite List.app_nil_r.
Qed.

(** A step that returns moves the data an [Appended] brings, and nothing
    else, into the file. *)
Lemma step_file (a : Action) (s s' : Scan) :
  step' a s = Ok s' ->
  before (f s') +:+ after (f s')
  = (before (f s) +:+ after (f s)) +:+ appended [a].
Proof.
  intros Hstep.
  destruct (step_outcome a s)
    as [(data & -> & E) | [(now & f' & -> & _ & E)
      | [(now & data & f' & -> & Hrl & _ & _ & E)
      | [(now & data & f' & -> & Hrl & _ & _ & E)
      | (w' & delta & E & _ & _ & _ & Happ)]]]];
    rewrite E in Hstep.
  - injection Hstep as <-. cbn. now rewrite str_app_nil_r, str_app_assoc.
  - injection Hstep as <-. cbn. now rewrite str_app_nil_r.
  - injection Hstep as <-. cbn. rewrite str_app_nil_r.
    now apply readline_content in Hrl as (_ & -> & _).
  - destruct (got_line_tail now f' (line s +:+ data) s) as (Hf & _).
    cbv zeta in Hf. rewrite Hstep in Hf. cbn [final] in Hf.
    cbn. rewrite str_app_nil_r, Hf.
    now apply readline_content in Hrl as (_ & -> & _).
  - injection Hstep as <-. cbn [f]. rewrite Happ.
    now rewrite str_app_nil_r.
Qed.

Lemma appended_cons (a : Action) (acts : list Action) :
  appended (a :: acts) = appended [a] +:+ appended acts.
Proof. destruct a; cbn; now rewrite ?str_app_nil_r. Qed.

Lemma run_file (acts : list Action) (s s' : Scan) :
  run' acts s = Ok s' ->
  before (f s') +:+ after (f s')
  = (before (f s) +:+ after (f s)) +:+ appended acts.
Proof.
  revert s; induction acts as [|a acts IH]; intros s; simpl run.
  - intros [= <-]. cbn. now rewrite str_app_nil_r.
  - destruct (step' a s) as [s1|e s1] eqn:E; [|discriminate].
    intros Hrun. rewrite (IH _ Hrun), (step_file _ _ _ E).
    now rewrite (appended_cons a acts), !str_app_assoc.
Qed.

(** Every line classified is complete, the line being assembled holds no
    newline, and what was read from the file is the lines classified and
    the line being assembled. *)
Lemma tail_invariant (history : string) (acts : list Action) (w : World D) :
  classified (trace w) = [] ->
  match run' acts (scan_start history w) with
  | Ok s =>
      Forall complete_line (classified (trace (world s))) /\
      newline_free (line s) = true /\
      before (f s)
      = (history +:+ join (classified (trace (world s)))) +:+ line s
  | Raised _ s =>
      Forall complete_line (classified (trace (world s))) /\
      before (f s) = history +:+ join (classified (trace (world s)))
  end.
Proof.
  intros Hfresh.
  apply (run_invariant
    (fun s => Forall complete_line (classified (trace (world s))) /\
       newline_free (line s) = true /\
       before (f s)
       = (history +:+ join (classified (trace (world s)))) +:+ line s)
    (fun s => Forall complete_line (classified (trace (world s))) /\
       before (f s) = history +:+ join (classified (trace (world s))))).
  - unfold scan_start, seek_end, open_read; cbn. rewrite Hfresh. cbn.
    split; [constructor|]. split; [reflexivity|].
    now rewrite !str_app_nil_r.
  - intros a s s' (Hall & Hfree & Hbefore) Hstep.
    destruct (step_outcome a s)
      as [(data & _ & E) | [(now & f' & _ & _ & E)
        | [(now & data & f' & _ & Hrl & Hdata & Hinc & E)
        | [(now & data & f' & _ & Hrl & Hdata & Hinc & E)
        | (w' & delta & E & Htr & Hplain & _)]]]];
      rewrite E in Hstep.
    + injection Hstep as <-. cbn. auto.
    + injection Hstep as <-. auto.
    + injection Hstep as <-. cbn [world line f].
      apply readline_content in Hrl as (Hb & _ & [Hd | Hd]).
      * split; [exact Hall|]. split.
        -- now rewrite newline_free_app, Hfree, Hd.
        -- now rewrite Hb, Hbefore, !str_app_assoc.
      * apply incomplete_true in Hinc. rewrite last_app in Hinc by assumption.
        now apply complete_line_last in Hd.
    + destruct (got_line_tail now f' (line s +:+ data) s) as (Hf & Hcl & Hline).
      cbv zeta in Hf, Hcl, Hline. rewrite Hstep in Hf, Hcl. cbn [final] in Hf, Hcl.
      rewrite Hcl, Hf, (Hline _ Hstep).
      apply readline_content in Hrl as (Hb & _ & [Hd | (body & -> & Hbody)]).
      * apply newline_free_last in Hd.
        rewrite <- (last_app (line s)) in Hd by assumption.
        apply incomplete_true in Hd. congruence.
      * split; [|split; [reflexivity|]].
        -- apply Forall_app. split; [exact Hall|]. constructor; [|constructor].
           exists (line s +:+ body). split; [now rewrite str_app_assoc|].
           now rewrite newline_free_app, Hfree, Hbody.
        -- now rewrite Hb, Hbefore, join_snoc, !str_app_nil_r, !str_app_assoc.
    + injection Hstep as <-. cbn [world line f].
      rewrite Htr, classified_app, (plain_classified _ Hplain), List.app_nil_r.
      auto.
  - intros a s e s' (Hall & Hfree & Hbefore) Hstep.
    destruct (step_outcome a s)
      as [(data & _ & E) | [(now & f' & _ & _ & E)
        | [(now & data & f' & _ & _ & _ & _ & E)
        | [(now & data & f' & _ & Hrl & Hdata & Hinc & E)
        | (w' & delta & E & _)]]]];
      rewrite E in Hstep; try discriminate.
    destruct (got_line_tail now f' (line s +:+ data) s) as (Hf & Hcl & _).
    cbv zeta in Hf, Hcl. rewrite Hstep in Hf, Hcl. cbn [final] in Hf, Hcl.
    rewrite Hcl, Hf.
    apply readline_content in Hrl as (Hb & _ & [Hd | (body & -> & Hbody)]).
    + apply newline_free_last in Hd.
      rewrite <- (last_app (line s)) in Hd by assumption.
      apply incomplete_true in Hd. congruence.
    + split.
      * apply Forall_app. split; [exact Hall|]. constructor; [|constructor].
        exists (line s +:+ body). split; [now rewrite str_app_assoc|].
        now rewrite newline_free_app, Hfree, Hbody.
      * now rewrite Hb, Hbefore, join_snoc, !str_app_assoc.
Qed.

(** C7: the tailer.  The log is positioned at its end on entry, so
    nothing of what it held is read; every line handed to [process_line] is
    complete, text without a newline followed by the newline; and the lines
    handed over, the fragment being assembled and the data not yet read
    make up, in this order, exactly the data appended since the start: a
    fragment waits in [line] until its newline has come. *)
Theorem tailer_complete_lines (history : string) (acts : list Action)
    (w : World D) :
  classified (trace w) = [] ->
  let r := scan_syslog history touchmark filename logfile acts w in
  f (scan_start history w) = mkFile history "" /\
  Forall complete_line (classified (trace (world (final r)))) /\
  (forall s, r = Ok s ->
     newline_free (line s) = true /\
     before (f s)
       = history +:+ join (classified (trace (world s))) +:+ line s /\
     join (classified (trace (world s))) +:+ line s +:+ after (f s)
       = appended acts).
Proof.
  intros Hfresh r. subst r. unfold scan_syslog.
  pose proof (tail_invariant history acts w Hfresh) as Hinv.
  split; [reflexivity|].
  destruct (run' acts (scan_start history w)) as [s|e s] eqn:Erun;
    cbn [final].
  - destruct Hinv as (Hall & Hfree & Hbefore).
    split; [exact Hall|]. intros s' [= <-].
    split; [exact Hfree|].
    rewrite str_app_assoc in Hbefore. split; [exact Hbefore|].
    pose proof (run_file _ _ _ Erun) as Hfile.
    cbn [scan_start f seek_end open_read before after] in Hfile.
    rewrite Hbefore, str_app_nil_l, str_app_nil_r, !str_app_assoc in Hfile.
    now apply (inj (String.app history)) in Hfile.
  - destruct Hinv as (Hall & _). split; [exact Hall | discriminate].
Qed.

End ScanFacts.

(** ** The sample session *)

Lemma rotation_names_witness :
  let s := final (sample_run (sample_batch 1 ++ sample_batch 2)) in
  length (touch_lines (touchmark_of sample_report)
            (classified (trace (world s))))
    = TOUCH_COUNT_FILE_ROTATE * file_count s + touch_count s /\
  touch_count s <= TOUCH_COUNT_FILE_ROTATE /\
  length (renames (trace (world s))) = file_count s /\
  forall k src dst,
    renames (trace (world s)) !! k = Some (src, dst) ->
    src = sample_report /\
    dst = match k with
          | 0 => sample_archive
          | S _ => (sample_archive +:+ ".") +:+ str k
          end.
Proof.
  apply (rotation_names (touchmark_of sample_report) sample_report
           sample_archive "earlier lines"
           (sample_batch 1 ++ sample_batch 2) sample_world).
  - reflexivity.
  - reflexivity.
  - discriminate.
Defined.

(** C1 as the spec words it fails: in the sample session the second
    rotation renames the report file to the archive name followed by [.1],
    not [.0], and the third to the one followed by [.2]. *)
Lemma rotation_suffix_counterexample :
  let s := final (sample_run (sample_batch 1 ++ sample_batch 2
                              ++ sample_batch 3)) in
  renames (trace (world s))
    = [("/tmp/report", "/var/log/sdq/archive");
       ("/tmp/report", "/var/log/sdq/archive.1");
       ("/tmp/report", "/var/log/sdq/archive.2")] /\
  renames (trace (world s)) !! 1
    <> Some ("/tmp/report", "/var/log/sdq/archive.0").
Proof.
  vm_compute. split; [reflexivity | discriminate].
Qed.

Lemma rotation_discipline_witness :
  let r := sample_run (sample_batch 1 ++ sample_batch 2) in
  touch_count (final r) <= TOUCH_COUNT_FILE_ROTATE /\
  rotation_gaps (trace (world (final r))) 0
    = replicate (length (renames (trace (world (final r)))))
        TOUCH_COUNT_FILE_ROTATE /\
  recorded_before_rename (trace (world (final r))).
Proof.
  destruct (rotation_discipline (touchmark_of sample_report) sample_report
              sample_archive "earlier lines"
              (sample_batch 1 ++ sample_batch 2) sample_world eq_refl)
    as (Hle & _ & _ & _ & Hg & Hr & _).
  exact (conj Hle (conj Hg Hr)).
Defined.

Lemma tailer_complete_lines_witness :
  Forall complete_line
    (classified (trace (world (final (sample_run (sample_batch 1)))))).
Proof.
  apply (tailer_complete_lines (touchmark_of sample_report) sample_report
           sample_archive "earlier lines" (sample_batch 1) sample_world).
  reflexivity.
Defined.

Lemma process_line_touch_witness :
  process_line 7 ("ERROR " +:+ sample_touch_line)
    (touchmark_of sample_report) sample_report sample_world
  = (true,
     mkWorld (dict_setitem 7 7 ("ERROR " +:+ sample_touch_line)
                (touches sample_world))
             (files sample_world)
             (trace sample_world
              ++ [Setitem 7 ("ERROR " +:+ sample_touch_line)])).
Proof.
  apply process_line_touch.
  apply contains_spec. reflexivity.
Defined.

Lemma process_line_failure_witness :
  exists w',
    process_line 7 ("kernel: WARNING: cpu stall" +:+ NL)
      (touchmark_of sample_report) sample_report sample_world = (false, w') /\
    files w' !! sample_report
      = Some (contents (files sample_world) sample_report +:+ strftime 7
              +:+ "kernel: WARNING: cpu stall" +:+ NL) /\
    trace w' = trace sample_world
               ++ [Write sample_report (strftime 7);
                   Write sample_report ("kernel: WARNING: cpu stall" +:+ NL)].
Proof.
  apply process_line_failure.
  - apply contains_false. reflexivity.
  - right; left. apply contains_spec. reflexivity.
Defined.

Lemma process_line_ignore_witness :
  process_line 7 ("sshd: session opened" +:+ NL)
    (touchmark_of sample_report) sample_report sample_world
  = (false, sample_world).
Proof.
  apply process_line_ignore; apply contains_false; reflexivity.
Defined.

Lemma process_line_frame_witness :
  let w' := (process_line 7 ("ERROR " +:+ sample_touch_line)
               (touchmark_of sample_report) sample_report sample_world).2 in
  touches w' = touches sample_world \/ files w' = files sample_world.
Proof.
  apply (process_line_frame 7 ("ERROR " +:+ sample_touch_line)
           (touchmark_of sample_report) sample_report sample_world).
Defined.

(** * Further properties of the script *)

(** ** The failure keywords *)

Section Keywords.
Context {D : Type} `{Platform D}.

Lemma substring_warning_warn (l : string) :
  Substring "WARNING" l -> Substring "WARN" l.
Proof.
  intros (pre & post & ->). exists pre, ("ING" +:+ post). reflexivity.
Qed.

(** X1: the loop over [FAILURES] finds a failure exactly when the line
    holds [ERROR] or [WARN]; the entry [WARNING] never decides, every line
    that holds it holds [WARN]. *)
Theorem failed_scan_error_or_warn (l : string) :
  failed_scan l = contains "ERROR" l || contains "WARN" l.
Proof.
  rewrite failed_scan_existsb. unfold FAILURES; cbn [existsb].
  destruct (contains "ERROR" l); [reflexivity|].
  destruct (contains "WARNING" l) eqn:Ewarning; cbn [orb].
  - apply contains_spec, substring_warning_warn, contains_spec in Ewarning.
    now rewrite Ewarning.
  - now rewrite orb_false_r.
Qed.

End Keywords.

(** ** One rotation and one report *)

Section RotationStep.
Context {D : Type} `{Platform D}.


(** X4: a reporter tick appends one line to the report file, the
    timestamp, the length the dictionary answers, and a newline; it leaves
    every other file alone, keeps the dictionary [len] returns, and neither
    classifies, stores nor renames. *)
Theorem report_snapshot (now : Z) (filename : string) (w : World D) :
  let w' := report now filename w in
  files w' !! filename
    = Some (contents (files w) filename +:+ strftime now
            +:+ str (dict_len now (touches w)).1 +:+ NL) /\
  (forall p, p <> filename -> files w' !! p = files w !! p) /\
  touches w' = (dict_len now (touches w)).2 /\
  classified (trace w') = classified (trace w) /\
  setitems (trace w') = setitems (trace w) /\
  renames (trace w') = renames (trace w).
Proof.
  intros w'. subst w'. unfold report.
  change (touches (write filename (strftime now) (print "Run report now..." w)))
    with (touches w).
  destruct (dict_len now (touches w)) as [n d] eqn:E. cbn [fst snd].
  unfold write, print, contents; cbn [files touches trace].
  rewrite (lookup_insert_eq (files w) filename); simpl default.
  split; [rewrite lookup_insert_eq; now rewrite str_app_assoc|].
  split; [intros p Hp; now rewrite !lookup_insert_ne by auto|].
  split; [reflexivity|].
  rewrite !classified_app, !setitems_app, !renames_app; cbn.
  now rewrite !List.app_nil_r.
Qed.

End RotationStep.

(** ** The option loop of [main] *)

Section MainFacts.
Import Main.

Lemma option_body_help (v : Vars) (arg : string) :
  option_body v ("-h", arg) = SystemExit None [usage].
Proof. reflexivity. Qed.

Lemma option_body_cases (v : Vars) (opt arg : string) :
  (opt = "-h" /\ option_body v (opt, arg) = SystemExit None [usage]) \/
  (opt <> "-h" /\ exists v', option_body v (opt, arg) = Proceed v').
Proof.
  unfold option_body.
  destruct (String.eqb_spec opt "-h") as [->|Hne]; [left | right]; eauto.
Qed.

(** X5: when [-h] is among the options, whatever comes before or after it,
    the loop prints the usage text and leaves through [sys.exit()] without
    an exit code, and prints nothing else. *)
Theorem option_loop_help (opts : list (string * string)) (arg : string)
    (v : Vars) :
  In ("-h", arg) opts ->
  option_loop opts v = SystemExit None [usage].
Proof.
  revert v; induction opts as [|[opt a] opts IH]; intros v Hin;
    [destruct Hin|].
  cbn [option_loop].
  destruct (option_body_cases v opt a) as [[_ ->] | [Hne [v' ->]]];
    [reflexivity|].
  destruct Hin as [Heq | Hin]; [injection Heq as Heq _; congruence|].
  now apply IH.
Qed.

Lemma option_loop_help_witness :
  option_loop [("-f", "/tmp/report"); ("-h", ""); ("-r", "1")] initial
  = SystemExit None [usage].
Proof.
  apply (option_loop_help _ ""). right; left. reflexivity.
Defined.

(** The variables after one pass of the body, option by option. *)
Lemma option_body_proceed (v v' : Vars) (opt arg : string) :
  option_body v (opt, arg) = Proceed v' ->
  filename v' = (if opt_in opt "-f" "--filename" then arg else filename v) /\
  touchmark v' = (if opt_in opt "-f" "--filename"
                  then Some (touchmark_of arg) else touchmark v) /\
  minutes v' = (if opt_in opt "-m" "-m" then arg else minutes v) /\
  logdir v' = (if opt_in opt "-d" "--logdir" then arg else logdir v) /\
  logfile v' = (if opt_in opt "-l" "--logfile" then arg else logfile v) /\
  runtime v' = (if opt_in opt "-r" "-r" then arg else runtime v).
Proof.
  unfold option_body, opt_in.
  destruct (String.eqb_spec opt "-h") as [->|?]; [discriminate|].
  intros [= <-].
  destruct (String.eqb_spec opt "-f") as [->|?]; [cbn; auto 10|].
  destruct (String.eqb_spec opt "--filename") as [->|?]; [cbn; auto 10|].
  destruct (String.eqb_spec opt "-m") as [->|?]; [cbn; auto 10|].
  destruct (String.eqb_spec opt "-d") as [->|?]; [cbn; auto 10|].
  destruct (String.eqb_spec opt "--logdir") as [->|?]; [cbn; auto 10|].
  destruct (String.eqb_spec opt "-l") as [->|?]; [cbn; auto 10|].
  destruct (String.eqb_spec opt "--logfile") as [->|?]; [cbn; auto 10|].
  destruct (String.eqb_spec opt "-r") as [->|?]; cbn; auto 10.
Qed.

Lemma last_arg_not_given (a b : string) (opts : list (string * string))
    (d : string) :
  given a b opts = false -> last_arg a b opts d = d.
Proof.
  revert d; induction opts as [|[o x] opts IH]; intros d; [reflexivity|].
  cbn [given existsb fst last_arg].
  intros [Ho Hg]%orb_false_elim. rewrite Ho. now apply IH.
Qed.

(** The loop from any variables: each ends as the argument of the last
    option that sets it, or as it was. *)
Lemma option_loop_last (opts : list (string * string)) (v v' : Vars) :
  option_loop opts v = Proceed v' ->
  filename v' = last_arg "-f" "--filename" opts (filename v) /\
  touchmark v' = (if given "-f" "--filename" opts
                  then Some (touchmark_of (filename v')) else touchmark v) /\
  minutes v' = last_arg "-m" "-m" opts (minutes v) /\
  logdir v' = last_arg "-d" "--logdir" opts (logdir v) /\
  logfile v' = last_arg "-l" "--logfile" opts (logfile v) /\
  runtime v' = last_arg "-r" "-r" opts (runtime v).
Proof.
  revert v; induction opts as [|[opt arg] opts IH]; intros v.
  - intros [= <-]. cbn. auto 10.
  - cbn [option_loop].
    destruct (option_body v (opt, arg)) as [v1|] eqn:Ebody; [|discriminate].
    intros Hloop.
    apply option_body_proceed in Ebody as (Hf & Ht & Hm & Hd & Hl & Hr).
    destruct (IH _ Hloop) as (Hf' & Ht' & Hm' & Hd' & Hl' & Hr').
    cbn [last_arg].
    rewrite <- Hf, <- Hm, <- Hd, <- Hl, <- Hr.
    split; [exact Hf'|]. split; [|auto].
    change (given "-f" "--filename" ((opt, arg) :: opts))
      with (opt_in opt "-f" "--filename" || given "-f" "--filename" opts).
    destruct (given "-f" "--filename" opts) eqn:Egiven.
    + now rewrite orb_true_r.
    + rewrite orb_false_r, Ht', Ht.
      destruct (opt_in opt "-f" "--filename"); [|reflexivity].
      rewrite Hf', Hf. now rewrite last_arg_not_given.
Qed.

(** X6: when the loop runs to its end from the initial values, every
    variable holds the argument of the last option that sets it, or the
    empty string; [touchmark] is bound exactly when [-f] was given, and
    then it is the marker built from the final [filename]. *)
Theorem option_loop_result (opts : list (string * string)) (v : Vars) :
  option_loop opts initial = Proceed v ->
  filename v = last_arg "-f" "--filename" opts "" /\
  touchmark v = (if given "-f" "--filename" opts
                 then Some (touchmark_of (filename v)) else None) /\
  minutes v = last_arg "-m" "-m" opts "" /\
  logdir v = last_arg "-d" "--logdir" opts "" /\
  logfile v = last_arg "-l" "--logfile" opts "" /\
  runtime v = last_arg "-r" "-r" opts "".
Proof. apply option_loop_last. Qed.

Lemma option_loop_result_witness :
  let v := mkVars "/tmp/b" (Some (touchmark_of "/tmp/b")) "5" "/var/log/sdq"
                  "archive" "1" in
  filename v = "/tmp/b" /\
  touchmark v = Some (touchmark_of (filename v)) /\
  minutes v = "5" /\ logdir v = "/var/log/sdq" /\
  logfile v = "archive" /\ runtime v = "1".
Proof.
  apply (option_loop_result
           [("-f", "/tmp/a"); ("-m", "5"); ("-d", "/var/log/sdq");
            ("-l", "archive"); ("-f", "/tmp/b"); ("-r", "1")]).
  reflexivity.
Defined.

End MainFacts.

(** ** The cron job *)

Section CronFacts.
Import Cron.
Variable truth : list Job -> bool.

Lemma filter_comment_complement (c : string) (l : list Job) :
  filter (fun j => comment j = c) l = [] ->
  filter (fun j => comment j <> c) l = l.
Proof.
  induction l as [|j l IH]; [reflexivity|].
  rewrite !filter_cons.
  destruct (decide (comment j = c)); [discriminate|].
  intros Hl. rewrite decide_True by assumption. now rewrite IH.
Qed.

Lemma filter_comment_twice (c : string) (l : list Job) :
  filter (fun j => comment j <> c) (filter (fun j => comment j <> c) l)
  = filter (fun j => comment j <> c) l.
Proof.
  apply filter_all, Forall_forall. intros j Hj.
  now apply list_elem_of_filter in Hj.
Qed.


(** The table [createCronJob] leaves: the jobs with another comment, in
    their order, and the new job after them. *)
Lemma createCronJob_table (cmd minutes c : string) (table : list Job) :
  (forall l, l <> [] -> truth l = true) ->
  createCronJob truth cmd minutes c table
  = filter (fun j => comment j <> c) table ++ [mkJob cmd c (Some minutes)].
Proof.
  intros Htruth. unfold createCronJob, CronTab, find_comment, new, every, write,
    remove_all; cbn [crons system].
  assert ((if truth (filter (fun j => comment j = c) table)
           then mkState (filter (fun j => comment j <> c) table)
                        (filter (fun j => comment j <> c) table)
           else mkState table table)
          = mkState (filter (fun j => comment j <> c) table)
                    (crons (if truth (filter (fun j => comment j = c) table)
                            then mkState (filter (fun j => comment j <> c) table)
                                         (filter (fun j => comment j <> c) table)
                            else mkState table table))) as ->.
  { destruct (truth (filter (fun j => comment j = c) table)) eqn:Et;
      [reflexivity|]. cbn [crons].
    assert (filter (fun j => comment j = c) table = []) as Hnone.
    { destruct (filter (fun j => comment j = c) table) as [|j l] eqn:Ef;
        [reflexivity|].
      rewrite Htruth in Et by discriminate. discriminate. }
    now rewrite filter_comment_complement. }
  cbn [crons system].
  rewrite <- (Nat.add_0_r (length (filter _ table))).
  now rewrite alter_app_r.
Qed.


(** X8: installing again under the same comment replaces the job: the
    table after two calls is the table after the second call alone, so a
    call repeated with the same arguments changes nothing. *)
Theorem createCronJob_again (cmd1 minutes1 cmd2 minutes2 c : string)
    (table : list Job) :
  (forall l, l <> [] -> truth l = true) ->
  createCronJob truth cmd2 minutes2 c
    (createCronJob truth cmd1 minutes1 c table)
  = createCronJob truth cmd2 minutes2 c table.
Proof.
  intros Htruth. rewrite !(createCronJob_table _ _ _ _ Htruth).
  rewrite filter_app, filter_comment_twice.
  rewrite (filter_cons_False (fun j => comment j <> c))
    by (intros Hne; now apply Hne).
  now rewrite filter_nil, List.app_nil_r.
Qed.

End CronFacts.


Lemma createCronJob_again_witness :
  let truth := fun l : list Cron.Job => true in
  Cron.createCronJob truth " touch /tmp/report" "5" "SDQScript"
    (Cron.createCronJob truth " touch /tmp/report" "5" "SDQScript"
       [Cron.mkJob "backup" "nightly" None])
  = Cron.createCronJob truth " touch /tmp/report" "5" "SDQScript"
      [Cron.mkJob "backup" "nightly" None].
Proof.
  apply (createCronJob_again (fun _ => true)). reflexivity.
Defined.

(** ** What a session keeps of the data it writes *)

Section SessionFacts.
Context {D : Type} `{Platform D}.
Variables touchmark filename logfile : string.

Local Abbreviation step'' := (step touchmark filename logfile).
Local Abbreviation run'' := (run touchmark filename logfile).

Lemma written_app (t1 t2 : list Effect) :
  written (t1 ++ t2) = written t1 +:+ written t2.
Proof.
  induction t1 as [|e t1 IH]; [reflexivity|].
  destruct e; cbn [app written]; rewrite IH; try reflexivity.
  now rewrite str_app_assoc.
Qed.

Lemma grows_refl (w : World D) : grows filename w w.
Proof.
  split; [reflexivity|]. split; [reflexivity|].
  exists "". now rewrite !str_app_nil_r.
Qed.

Lemma grows_trans (w1 w2 w3 : World D) :
  grows filename w1 w2 -> grows filename w2 w3 -> grows filename w1 w3.
Proof.
  intros (Hr1 & Hf1 & d1 & Hw1 & Hc1) (Hr2 & Hf2 & d2 & Hw2 & Hc2).
  split; [congruence|]. split.
  - intros p Hp. now rewrite Hf2, Hf1.
  - exists (d1 +:+ d2). rewrite Hw2, Hw1, Hc2, Hc1.
    now rewrite !str_app_assoc.
Qed.

Lemma grows_log (e : Effect) (w : World D) :
  renames [e] = [] -> written [e] = "" -> grows filename w (log e w).
Proof.
  intros Hr Hw. unfold log. split; [|split]; cbn [trace files].
  - now rewrite renames_app, Hr, List.app_nil_r.
  - reflexivity.
  - exists "". now rewrite written_app, Hw, !str_app_nil_r.
Qed.

Lemma grows_write (data : string) (w : World D) :
  grows filename w (write filename data w).
Proof.
  unfold write. split; [|split]; cbn [trace files].
  - rewrite renames_app. cbn. apply List.app_nil_r.
  - intros p Hp. now rewrite lookup_insert_ne.
  - exists data. split.
    + rewrite written_app. cbn. now rewrite str_app_nil_r.
    + unfold contents at 1. now rewrite lookup_insert_eq.
Qed.

Lemma grows_process_line (now : Z) (l : string) (w : World D) :
  grows filename w (process_line now l touchmark filename w).2.
Proof.
  unfold process_line.
  destruct (contains touchmark l); [|destruct (failed_scan l)]; cbn [snd].
  - apply (grows_log (Setitem now l) w); reflexivity.
  - eapply grows_trans; apply grows_write.
  - apply grows_refl.
Qed.

Lemma grows_report (now : Z) (w : World D) :
  grows filename w (report now filename w).
Proof.
  unfold report.
  destruct (dict_len now _) as [n d] eqn:E.
  eapply grows_trans; [|apply grows_write].
  eapply grows_trans;
    [apply (grows_log (Print "Run report now...") w); reflexivity|].
  eapply grows_trans; [apply grows_write|].
  split; [reflexivity|]. split; [reflexivity|].
  exists "". cbn [trace files]. now rewrite !str_app_nil_r.
Qed.

Lemma grows_cron_touch (w : World D) :
  grows filename w (cron_touch filename w).
Proof.
  unfold cron_touch.
  destruct (files w !! filename) eqn:E; [apply grows_refl|].
  split; [reflexivity|]. split; cbn [files trace].
  - intros p Hp. now rewrite lookup_insert_ne.
  - exists "". unfold contents. rewrite lookup_insert_eq, E.
    now rewrite !str_app_nil_r.
Qed.

(** The handling of a line either only lets the report file grow, or lets
    it grow and then rotates it; an exception leaves after the growth. *)
Lemma got_line_store (now : Z) (f' : File) (l : string) (s : @Scan D) :
  match got_line now touchmark filename logfile f' l s with
  | Ok s' =>
      (file_count s' = file_count s /\
       grows filename (world s) (world s')) \/
      rotates filename logfile s s'
  | Raised _ s' =>
      file_count s' = file_count s /\ grows filename (world s) (world s')
  end.
Proof.
  unfold got_line.
  pose proof (grows_process_line now l (log (Classify l) (world s))) as Hg.
  destruct (process_line now l touchmark filename (log (Classify l) (world s)))
    as [touched w1]. cbn [snd] in Hg.
  assert (grows filename (world s) w1) as Hg1.
  { eapply grows_trans; [|exact Hg]. now apply grows_log. }
  destruct (Nat.eqb _ TOUCH_COUNT_FILE_ROTATE); [|left; now split].
  unfold createRotatingLog, os_rename, os_path_exists.
  destruct (files w1 !! filename) as [c|] eqn:Efile.
  - assert (forall dst,
      rotated logfile (file_count s) (files w1) = dst ->
      rotates filename logfile s
        (mkScan f' "" 0 (S (file_count s))
           (mkWorld (touches w1) (<[dst := c]> (delete filename (files w1)))
                    (trace w1 ++ [Rename filename dst])))) as Hrot.
    { intros dst <-. exists w1, c. auto. }
    unfold rotated in Hrot.
    destruct (bool_decide (is_Some (files w1 !! logfile))); cbn [negb];
      right; now apply Hrot.
  - destruct (negb _); now split.
Qed.

Lemma step_store (a : Action) (s : @Scan D) :
  match step'' a s with
  | Ok s' =>
      (file_count s' = file_count s /\
       grows filename (world s) (world s')) \/
      rotates filename logfile s s'
  | Raised _ s' =>
      file_count s' = file_count s /\ grows filename (world s) (world s')
  end.
Proof.
  destruct a as [data|now|now|]; cbn [step].
  - left. split; [reflexivity | apply grows_refl].
  - unfold readline_step.
    destruct (readline (f s)) as [data f'].
    destruct (String.eqb data "");
      [left; split; [reflexivity | apply grows_refl]|].
    destruct (incomplete (line s +:+ data));
      [left; split; [reflexivity | apply grows_refl]|].
    apply got_line_store.
  - left. split; [reflexivity | apply grows_report].
  - left. split; [reflexivity | apply grows_cron_touch].
Qed.

(** *** The names of the rotated files *)

Lemma rotation_name_inj (i j : nat) :
  (rotation_name filename logfile i).2 = (rotation_name filename logfile j).2 ->
  i = j.
Proof.
  assert (forall k, logfile <> (logfile +:+ ".") +:+ str (S k)) as Hne.
  { intros k E. rewrite str_app_assoc in E.
    rewrite <- (str_app_nil_r logfile) in E at 1.
    apply (inj (String.app logfile)) in E. discriminate. }
  unfold rotation_name; cbn [snd].
  destruct i as [|i], j as [|j]; intros E.
  - reflexivity.
  - now apply Hne in E.
  - symmetry in E. now apply Hne in E.
  - rewrite !str_app_assoc in E.
    apply (inj (String.app logfile)) in E.
    apply (inj (String.app ".")) in E.
    now apply (inj pretty) in E.
Qed.

Lemma rotation_name_not_report (i : nat) :
  startswith logfile filename = false ->
  (rotation_name filename logfile i).2 <> filename.
Proof.
  intros Hpre E.
  assert (startswith logfile filename = true) as Htrue; [|congruence].
  apply startswith_spec. unfold rotation_name in E; cbn [snd] in E.
  destruct i as [|i].
  - exists "". now rewrite str_app_nil_r.
  - exists ("." +:+ str (S i)). now rewrite <- str_app_assoc.
Qed.

Lemma fresh_rotations_step (a : Action) (s s' : @Scan D) :
  filename <> logfile ->
  fresh_rotations filename logfile s ->
  step'' a s = Ok s' ->
  fresh_rotations filename logfile s'.
Proof.
  intros Hne (Hren & H0 & H1) Hstep.
  pose proof (step_store a s) as Hstore. rewrite Hstep in Hstore.
  destruct Hstore as [[Hfc (Hr & Hf & _)]
    | (w1 & c & (Hr & Hf & _) & Hc & Hfc & Htr & Hfs)];
    unfold fresh_rotations.
  - rewrite Hr, Hfc, Hf by auto. auto.
  - rewrite Hfc, Htr, Hfs, renames_app, Hr, Hren, seq_names_snoc.
    cbn [renames]. unfold rotated. rewrite Hf by auto.
    split; [|split; [discriminate|]].
    + f_equal. f_equal. unfold rotation_name.
      destruct (file_count s) as [|k].
      * rewrite H0 by reflexivity.
        now rewrite bool_decide_eq_false_2 by (intros [? ?]; discriminate).
      * now rewrite bool_decide_eq_true_2 by (apply H1; discriminate).
    + intros _. rewrite lookup_insert.
      case_decide as Hdst; [eauto|].
      rewrite lookup_delete_ne, Hf by auto.
      destruct (bool_decide (is_Some (files (world s) !! logfile))) eqn:Eb;
        [now apply bool_decide_eq_true_1 in Eb | congruence].
Qed.

Lemma fresh_rotations_names (s : @Scan D) (n : string) :
  fresh_rotations filename logfile s ->
  n ∈ map snd (renames (trace (world s))) ->
  exists i, i < file_count s /\ n = (rotation_name filename logfile i).2.
Proof.
  intros (Hren & _) Hn. rewrite Hren in Hn.
  apply list_elem_of_fmap in Hn as (p & -> & Hp).
  apply list_elem_of_fmap in Hp as (i & -> & Hi).
  apply elem_of_seq in Hi. exists i. split; [lia | reflexivity].
Qed.

(** *** Nothing written is lost *)

(** Growth of the report file keeps [kept], when no rotated file is the
    report file. *)
Lemma kept_grows (w w' : World D) :
  (forall n, n ∈ map snd (renames (trace w)) -> n <> filename) ->
  kept filename w -> grows filename w w' -> kept filename w'.
Proof.
  intros Hnames Hkept (Hr & Hf & data & Hw & Hc). unfold kept in *.
  rewrite Hr, Hw, Hc, <- Hkept, str_app_assoc. f_equal. f_equal.
  apply map_ext_in. intros n Hn%list_elem_of_In.
  unfold contents. now rewrite Hf by auto.
Qed.

(** A rotation to a new name, not the report file's, keeps [kept]. *)
Lemma kept_rename (w : World D) (c dst : string) (fs : gmap string string)
    (tr : list Effect) :
  (forall n, n ∈ map snd (renames (trace w)) -> n <> filename /\ n <> dst) ->
  dst <> filename ->
  files w !! filename = Some c ->
  kept filename w ->
  kept filename
    (mkWorld (touches w) (<[dst := c]> (delete filename (files w)))
             (trace w ++ [Rename filename dst])).
Proof.
  intros Hnames Hdst Hc Hkept. unfold kept in *; cbn [files trace].
  rewrite renames_app, written_app. cbn [renames written].
  rewrite !map_app. cbn [map snd]. rewrite join_snoc.
  unfold contents at 2 3.
  rewrite lookup_insert_eq, lookup_insert_ne, lookup_delete_eq by auto.
  cbn [default from_option id]. rewrite !str_app_nil_r, <- Hkept.
  unfold contents at 3. rewrite Hc. cbn [default from_option id].
  f_equal. f_equal.
  apply map_ext_in. intros n Hn%list_elem_of_In.
  destruct (Hnames n Hn) as [Hn1 Hn2].
  unfold contents. rewrite lookup_insert_ne by auto.
  now rewrite lookup_delete_ne by auto.
Qed.

Lemma kept_step (a : Action) (s : @Scan D) :
  startswith logfile filename = false ->
  fresh_rotations filename logfile s ->
  kept filename (world s) ->
  kept filename (world (final (step'' a s))).
Proof.
  intros Hpre Hfresh Hkept.
  assert (forall n, n ∈ map snd (renames (trace (world s))) ->
                    n <> filename) as Hnames.
  { intros n Hn.
    destruct (fresh_rotations_names s n Hfresh Hn) as (i & _ & ->).
    now apply rotation_name_not_report. }
  pose proof (step_store a s) as Hstore.
  destruct (step'' a s) as [s'|e s'] eqn:Hstep; cbn [final].
  - destruct Hstore as [[_ Hg] | (w1 & c & Hg & Hc & Hfc & Htr & Hfs)].
    + now apply (kept_grows (world s)).
    + assert (filename <> logfile) as Hne.
      { intros ->.
        assert (startswith logfile logfile = true) as Ht; [|congruence].
        apply startswith_spec. exists "". now rewrite str_app_nil_r. }
      pose proof (fresh_rotations_step a s s' Hne Hfresh Hstep) as Hfresh'.
      destruct Hfresh' as (Hren' & _). destruct Hfresh as (Hren & Hfr).
      assert (rotated logfile (file_count s) (files w1)
              = (rotation_name filename logfile (file_count s)).2) as Hdst.
      { rewrite Htr, renames_app, Hfc, seq_names_snoc in Hren'.
        destruct Hg as (Hr & _). rewrite Hr, Hren in Hren'.
        apply app_inv_head in Hren'. cbn [renames] in Hren'.
        now injection Hren' as ->. }
      pose proof (kept_grows (world s) w1 Hnames Hkept Hg) as Hkept1.
      assert (kept filename
                (mkWorld (touches w1)
                   (<[rotated logfile (file_count s) (files w1) := c]>
                      (delete filename (files w1)))
                   (trace w1 ++ [Rename filename
                      (rotated logfile (file_count s) (files w1))])))
        as Hk.
      { apply (kept_rename w1 c _ (files w1) (trace w1)); auto.
        - intros n Hn. destruct Hg as (Hr & _). rewrite Hr in Hn.
          split; [now apply Hnames|].
          destruct (fresh_rotations_names s n (conj Hren Hfr) Hn)
            as (i & Hi & ->).
          rewrite Hdst. intros E. apply rotation_name_inj in E. lia.
        - rewrite Hdst. now apply rotation_name_not_report. }
      unfold kept in Hk |- *. cbn [files trace] in Hk.
      now rewrite Htr, Hfs.
  - destruct Hstore as [_ Hg]. now apply (kept_grows (world s)).
Qed.

(** X9: nothing the session writes is lost by the rotations.  In a session
    that starts with an empty trace, no archive and no report data, and
    whose report file name does not begin with the archive name, the files
    the rotations produced, read in the order of the rotations, followed by
    the report file, hold exactly the data written, in the order it was
    written; this holds also in the state an exception leaves. *)
Theorem report_data_kept (history : string) (acts : list Action)
    (w : World D) :
  trace w = [] ->
  files w !! logfile = None ->
  startswith logfile filename = false ->
  contents (files w) filename = "" ->
  let s := final (scan_syslog history touchmark filename logfile acts w) in
  join (map (contents (files (world s)))
            (map snd (renames (trace (world s)))))
  +:+ contents (files (world s)) filename
  = written (trace (world s)).
Proof.
  intros Hfresh Hnone Hpre Hempty.
  assert (filename <> logfile) as Hne.
  { intros ->.
    assert (startswith logfile logfile = true) as Ht; [|congruence].
    apply startswith_spec. exists "". now rewrite str_app_nil_r. }
  pose proof (run_invariant touchmark filename logfile
    (fun s => fresh_rotations filename logfile s /\ kept filename (world s))
    (fun s => kept filename (world s)) acts (scan_start history w)) as Hrun.
  cbv zeta. unfold scan_syslog.
  destruct (run'' acts (scan_start history w)) as [s|e s]; cbn [final];
    [apply Hrun | apply Hrun].
  all: try (unfold scan_start, fresh_rotations, kept;
            cbn [world file_count]; rewrite Hfresh, Hempty; cbn;
            repeat split; auto; intros []; reflexivity).
  all: try (intros a s0 s1 [Hf Hk] Hstep; split;
            [now apply (fresh_rotations_step a s0) |];
            pose proof (kept_step a s0 Hpre Hf Hk) as Hk';
            now rewrite Hstep in Hk').
  all: intros a s0 e0 s1 [Hf Hk] Hstep;
       pose proof (kept_step a s0 Hpre Hf Hk) as Hk';
       now rewrite Hstep in Hk'.
Qed.

(** X10: in a session that starts with no rotation done and no archive,
    no two rotations rename the report file to the same name. *)
Theorem rotation_names_distinct (history : string) (acts : list Action)
    (w : World D) :
  renames (trace w) = [] ->
  files w !! logfile = None ->
  filename <> logfile ->
  let s := final (scan_syslog history touchmark filename logfile acts w) in
  NoDup (map snd (renames (trace (world s)))).
Proof.
  intros Hfresh Hnone Hne s.
  pose proof (rotation_invariant touchmark filename logfile history acts w
                Hfresh Hnone Hne) as Hinv.
  cbv zeta in Hinv. fold s in Hinv. rewrite Hinv.
  apply NoDup_fmap_2_strong.
  - intros [src1 dst1] [src2 dst2] H1 H2 E. cbn [snd] in E. subst dst2.
    apply list_elem_of_fmap in H1 as (i & E1 & _).
    apply list_elem_of_fmap in H2 as (j & E2 & _).
    assert (i = j) as ->; [|congruence].
    apply rotation_name_inj. now rewrite <- E1, <- E2.
  - apply NoDup_fmap_2_strong; [|apply NoDup_seq].
    intros i j _ _ E. apply rotation_name_inj. now rewrite E.
Qed.

(** *** When the archive is there from the start *)

Lemma present_rotations_step (a : Action) (s s' : @Scan D) :
  filename <> logfile ->
  present_rotations filename logfile s ->
  step'' a s = Ok s' ->
  present_rotations filename logfile s'.
Proof.
  intros Hne (Hren & Hsome) Hstep.
  pose proof (step_store a s) as Hstore. rewrite Hstep in Hstore.
  destruct Hstore as [[Hfc (Hr & Hf & _)]
    | (w1 & c & (Hr & Hf & _) & Hc & Hfc & Htr & Hfs)];
    unfold present_rotations.
  - rewrite Hr, Hfc, Hf by auto. auto.
  - rewrite Hfc, Htr, Hfs, renames_app, Hr, Hren, seq_names_snoc.
    cbn [renames]. unfold rotated. rewrite Hf by auto.
    rewrite bool_decide_eq_true_2 by assumption.
    split; [reflexivity|].
    rewrite lookup_insert. case_decide; [eauto|].
    now rewrite lookup_delete_ne, Hf by auto.
Qed.

(** X11: in a session that finds the archive present, every rotation
    renames the report file to a suffixed name, the first to the archive
    name followed by [.0], the next by [.1], and so on; the unsuffixed name
    is not used. *)
Theorem rotation_names_archive_present (history : string)
    (acts : list Action) (w : World D) :
  renames (trace w) = [] ->
  is_Some (files w !! logfile) ->
  filename <> logfile ->
  let s := final (scan_syslog history touchmark filename logfile acts w) in
  length (renames (trace (world s))) = file_count s /\
  forall k src dst,
    renames (trace (world s)) !! k = Some (src, dst) ->
    src = filename /\ dst = (logfile +:+ ".") +:+ str k.
Proof.
  intros Hfresh Hsome Hne s.
  assert (renames (trace (world s))
          = map (suffixed_name filename logfile) (seq 0 (file_count s)))
    as Hinv.
  { pose proof (run_invariant touchmark filename logfile
      (fun s => present_rotations filename logfile s)
      (fun s => renames (trace (world s))
                = map (suffixed_name filename logfile) (seq 0 (file_count s)))
      acts (scan_start history w)) as Hrun.
    subst s. unfold scan_syslog.
    destruct (run'' acts (scan_start history w)) as [s|e s]; cbn [final];
      [apply Hrun | apply Hrun].
    all: try (unfold scan_start, present_rotations;
              cbn [world file_count]; rewrite Hfresh; now split).
    all: try (intros a s0 s1 Hp Hstep;
              now apply (present_rotations_step a s0)).
    all: intros a s0 e0 s1 (Hren & _) Hstep;
         pose proof (step_store a s0) as Hstore; rewrite Hstep in Hstore;
         destruct Hstore as [Hfc (Hr & _)]; now rewrite Hr, Hfc. }
  rewrite Hinv. split.
  - now rewrite length_map, length_seq.
  - intros k src dst Hk.
    rewrite list_lookup_fmap in Hk.
    destruct (seq 0 (file_count s) !! k) as [i|] eqn:Ei; [|discriminate].
    apply lookup_seq in Ei as [-> _].
    injection Hk as <- <-. now split.
Qed.

(** *** The exception of a session *)


End SessionFacts.

(** ** One line for each readline *)

Section Drain.
Context {D : Type} `{Platform D}.
Variables touchmark filename logfile : string.

Lemma count_newlines_free (s : string) :
  count_newlines s = 0 <-> newline_free s = true.
Proof.
  induction s as [|a s IH]; [now split|].
  cbn [count_newlines newline_free].
  destruct (Ascii.eqb a newline); cbn [negb andb]; [now split|].
  exact IH.
Qed.

Lemma count_newlines_app (s t : string) :
  count_newlines (s +:+ t) = count_newlines s + count_newlines t.
Proof.
  induction s as [|a s IH]; [reflexivity|].
  rewrite str_app_cons. cbn [count_newlines]. rewrite IH. lia.
Qed.

(** What [split_line] leaves has one newline less, when there was one;
    without a newline all the text is taken. *)
Lemma split_line_count (s d r : string) :
  split_line s = (d, r) ->
  (count_newlines s = 0 /\ d = s /\ r = "") \/
  (complete_line d /\ S (count_newlines r) = count_newlines s).
Proof.
  revert d r; induction s as [|a s IH]; intros d r; cbn [split_line].
  - intros [= <- <-]. now left.
  - cbn [count_newlines].
    destruct (Ascii.eqb_spec a newline) as [->|Ha].
    + intros [= <- <-]. right. split; [now exists ""|]. reflexivity.
    + destruct (split_line s) as [d' r'].
      intros [= <- <-].
      assert (negb (Ascii.eqb a newline) = true) as Hneg
        by (apply negb_true_iff; now apply Ascii.eqb_neq).
      destruct (IH d' r' eq_refl) as [(H0 & -> & ->) | [(body & -> & Hb) Hc]].
      * now left.
      * right. split; [|exact Hc].
        exists (String a body). split; [reflexivity|].
        cbn [newline_free]. now rewrite Hneg, Hb.
Qed.

(** One readline: with a newline unread, exactly one line is classified
    and one newline less is unread; without one, no line is classified. *)
Lemma readline_step_drain (now : Z) (s s' : @Scan D) :
  newline_free (line s) = true ->
  step touchmark filename logfile (Readline now) s = Ok s' ->
  newline_free (line s') = true /\
  count_newlines (after (f s')) = pred (count_newlines (after (f s))) /\
  length (classified (trace (world s')))
  = length (classified (trace (world s)))
    + (if decide (count_newlines (after (f s)) = 0) then 0 else 1).
Proof.
  intros Hfree Hstep.
  assert (forall data g, readline (f s) = (data, g) ->
            (count_newlines (after (f s)) = 0 /\ newline_free data = true /\
             after g = "") \/
            (complete_line data /\
             S (count_newlines (after g)) = count_newlines (after (f s))))
    as Hread.
  { intros data g. unfold readline.
    destruct (split_line (after (f s))) as [d r] eqn:E.
    intros [= <- <-]. cbn [after].
    destruct (split_line_count _ _ _ E) as [(H0 & -> & ->) | [Hc Hn]];
      [left | right; auto].
    split; [exact H0|]. split; [now apply count_newlines_free | reflexivity]. }
  cbn [step] in Hstep. unfold readline_step in Hstep.
  destruct (readline (f s)) as [data f'] eqn:Hrl.
  destruct (String.eqb_spec data "") as [->|Hdata];
    [|destruct (incomplete (line s +:+ data)) eqn:Hinc].
  - injection Hstep as <-. split; [exact Hfree|].
    destruct (Hread _ _ eq_refl) as [(H0 & _ & _) | [Hc _]].
    + rewrite H0. rewrite decide_True by reflexivity. split; [reflexivity | lia].
    + destruct Hc as (body & Hb & _). destruct body; discriminate.
  - injection Hstep as <-. cbn [line f world].
    destruct (Hread _ _ eq_refl) as [(H0 & Hd & ->) | [Hc _]].
    + rewrite H0, decide_True by reflexivity.
      split; [now rewrite newline_free_app, Hfree, Hd|].
      split; [reflexivity | lia].
    + apply incomplete_true in Hinc. rewrite last_app in Hinc by assumption.
      now apply complete_line_last in Hc.
  - destruct (got_line_tail touchmark filename logfile now f'
                (line s +:+ data) s) as (Hf & Hcl & Hline).
    cbv zeta in Hf, Hcl, Hline. rewrite Hstep in Hf, Hcl.
    cbn [final] in Hf, Hcl. rewrite Hcl, Hf, (Hline _ Hstep), length_app.
    destruct (Hread _ _ eq_refl) as [(H0 & Hd & _) | [_ Hn]].
    + apply newline_free_last in Hd.
      rewrite <- (last_app (line s)) in Hd by assumption.
      apply incomplete_true in Hd. congruence.
    + rewrite <- Hn. rewrite decide_False by lia.
      split; [reflexivity|]. split; [reflexivity|]. cbn [length]. lia.
Qed.

(** X12: the tailer hands over one line for each readline.  From a state
    whose buffered fragment holds no newline, [k] readlines that return
    classify the first [k] of the lines whose newline is unread (all of
    them when there are fewer), and leave the newlines of the others
    unread. *)
Theorem readlines_drain (ts : list Z) (s s' : @Scan D) :
  newline_free (line s) = true ->
  run touchmark filename logfile (map Readline ts) s = Ok s' ->
  count_newlines (after (f s'))
  = count_newlines (after (f s)) - length ts /\
  length (classified (trace (world s')))
  = length (classified (trace (world s)))
    + Nat.min (length ts) (count_newlines (after (f s))).
Proof.
  revert s; induction ts as [|now ts IH]; intros s Hfree; cbn [map run].
  - intros [= <-]. cbn [length]. split; lia.
  - destruct (step touchmark filename logfile (Readline now) s)
      as [s1|e s1] eqn:Hstep; [|discriminate].
    intros Hrun.
    destruct (readline_step_drain now s s1 Hfree Hstep) as (Hfree1 & Hn & Hc).
    destruct (IH s1 Hfree1 Hrun) as (Hn' & Hc').
    rewrite Hn', Hc', Hn, Hc. cbn [length].
    case_decide; split; lia.
Qed.

End Drain.

Lemma readlines_drain_witness :
  let s := final (sample_run [Appended ("a" +:+ NL +:+ "b" +:+ NL +:+ "c")]) in
  let s' := final (run (touchmark_of sample_report) sample_report
                     sample_archive (map Readline [1; 2; 3; 4]%Z) s) in
  count_newlines (after (f s')) = count_newlines (after (f s)) - 4 /\
  length (classified (trace (world s')))
  = length (classified (trace (world s)))
    + Nat.min 4 (count_newlines (after (f s))).
Proof.
  apply (readlines_drain (touchmark_of sample_report) sample_report
           sample_archive [1; 2; 3; 4]%Z).
  - reflexivity.
  - vm_compute. reflexivity.
Defined.

(** ** More of the sample session *)


Lemma report_data_kept_witness :
  let s := final (sample_run (sample_batch 1 ++ ReportTick 2
                              :: sample_batch 3)) in
  join (map (contents (files (world s)))
            (map snd (renames (trace (world s)))))
  +:+ contents (files (world s)) sample_report
  = written (trace (world s)).
Proof.
  unfold sample_run.
  apply (report_data_kept (touchmark_of sample_report) sample_report
           sample_archive "earlier lines"
           (sample_batch 1 ++ ReportTick 2 :: sample_batch 3) sample_world);
    reflexivity.
Defined.

Lemma rotation_names_distinct_witness :
  NoDup (map snd (renames (trace (world (final
    (sample_run (sample_batch 1 ++ sample_batch 2))))))).
Proof.
  unfold sample_run.
  apply (rotation_names_distinct (touchmark_of sample_report) sample_report
           sample_archive "earlier lines"
           (sample_batch 1 ++ sample_batch 2) sample_world).
  - reflexivity.
  - reflexivity.
  - discriminate.
Defined.

Lemma rotation_names_archive_present_witness :
  let w := mkWorld main_touches {[ sample_archive := "of an earlier session" ]}
             [] in
  let s := final (scan_syslog "earlier lines" (touchmark_of sample_report)
                    sample_report sample_archive
                    (sample_batch 1 ++ sample_batch 2) w) in
  length (renames (trace (world s))) = file_count s /\
  forall k src dst,
    renames (trace (world s)) !! k = Some (src, dst) ->
    src = sample_report /\ dst = (sample_archive +:+ ".") +:+ str k.
Proof.
  apply (rotation_names_archive_present (touchmark_of sample_report)
           sample_report sample_archive "earlier lines"
           (sample_batch 1 ++ sample_batch 2)
           (mkWorld main_touches
              {[ sample_archive := "of an earlier session" ]} [])).
  - reflexivity.
  - eexists. reflexivity.
  - discriminate.
Defined.
